(** * MPD client (mpd-mpc-node): record decoder, entity mapper, session and
    search resolver of [MpdClientImpl], embedded from the TypeScript source.

    Strings are sequences of code units below 256 (the Latin-1 range), on
    which the string built-ins used by the client are modelled exactly.
    Asynchronous methods are run to completion one after the other: a method
    is a function from the session (fields of the object, the commands put
    on the wire, the console) to an outcome and the session after it. *)

From Stdlib Require Import ZArith NArith QArith Qround Ascii String List Bool Lia.
From Stdlib Require Import DecimalString.
From stdpp Require Import gmap strings list fin_maps.

Local Open Scope string_scope.
Local Open Scope list_scope.

(** ** Built-ins of the language: strings *)

Module Js.

Definition code (c : ascii) : N := N_of_ascii c.

(** WhiteSpace and LineTerminator code units below 256: what the regular
    expression class \s matches and what trim removes. *)
Definition isWhiteSpace (c : ascii) : bool :=
  let n := code c in
  ((9 <=? n) && (n <=? 13) || (n =? 32) || (n =? 160))%N.

(** LineTerminator below 256: what the regular expression dot refuses. *)
Definition isLineTerminator (c : ascii) : bool :=
  let n := code c in ((n =? 10) || (n =? 13))%N.

Definition lowerChar (c : ascii) : ascii :=
  let n := code c in
  if ((65 <=? n) && (n <=? 90) ||
      (192 <=? n) && (n <=? 222) && negb (n =? 215))%N
  then ascii_of_N (n + 32) else c.

(** String.prototype.toLowerCase *)
Fixpoint toLowerCase (s : string) : string :=
  match s with
  | EmptyString => EmptyString
  | String c s' => String (lowerChar c) (toLowerCase s')
  end.

Definition isEmpty (s : string) : bool :=
  match s with EmptyString => true | String _ _ => false end.

Fixpoint trimStart (s : string) : string :=
  match s with
  | EmptyString => EmptyString
  | String c s' => if isWhiteSpace c then trimStart s' else s
  end.

Fixpoint trimEnd (s : string) : string :=
  match s with
  | EmptyString => EmptyString
  | String c s' =>
      let t := trimEnd s' in
      if isWhiteSpace c && isEmpty t then EmptyString else String c t
  end.

(** String.prototype.trim *)
Definition trim (s : string) : string := trimEnd (trimStart s).

(** String.prototype.includes *)
Fixpoint includes (sub s : string) : bool :=
  String.prefix sub s ||
  match s with
  | EmptyString => false
  | String _ s' => includes sub s'
  end.

(** The scan of String.prototype.split for a separator that is not empty:
    [skip] counts the code units of a separator still to pass over; the
    result is the piece being read and the pieces after it. *)
Fixpoint split_scan (sep : string) (skip : nat) (s : string)
  : string * list string :=
  match s with
  | EmptyString => (EmptyString, [])
  | String c s' =>
      match skip with
      | S k => split_scan sep k s'
      | O =>
          if String.prefix sep s
          then (EmptyString,
                let '(p, ps) := split_scan sep (String.length sep - 1) s' in
                p :: ps)
          else let '(p, ps) := split_scan sep 0 s' in (String c p, ps)
      end
  end.

(** String.prototype.split(sep), [sep] not empty *)
Definition split (sep s : string) : list string :=
  let '(p, ps) := split_scan sep 0 s in p :: ps.

Definition dquote : ascii := ascii_of_N 34.
Definition backslash : ascii := ascii_of_N 92.

(** s.replace(/QUOTE/g, BACKSLASH QUOTE): every double quote gets a
    backslash before it. *)
Fixpoint escapeQuotes (s : string) : string :=
  match s with
  | EmptyString => EmptyString
  | String c s' =>
      if Ascii.eqb c dquote
      then String backslash (String dquote (escapeQuotes s'))
      else String c (escapeQuotes s')
  end.

Definition quoted (s : string) : string :=
  String dquote (s ++ String dquote EmptyString).

(** The line feed, as a separator. *)
Definition LF : string := String (ascii_of_N 10) EmptyString.

(** ** Built-ins of the language: numbers *)

(** A Number value. A finite value is kept as the rational it denotes
    (every finite double is one); rounding to binary64 is not modelled. *)
Inductive number : Type :=
  | NaN
  | PosInfinity
  | NegInfinity
  | Finite (q : Q).

(** The numbers with no fractional part, where Math.floor takes its
    values; the clamp of setVolume and Number.prototype.toString are
    modelled on them. *)
Inductive integral : Type :=
  | INaN
  | IPosInfinity
  | INegInfinity
  | IInt (z : Z).

Definition Math_floor (x : number) : integral :=
  match x with
  | NaN => INaN
  | PosInfinity => IPosInfinity
  | NegInfinity => INegInfinity
  | Finite q => IInt (Qfloor q)
  end.

(** Math.min and Math.max of two values: NaN if either is NaN. *)
Definition Math_min (a b : integral) : integral :=
  match a, b with
  | INaN, _ | _, INaN => INaN
  | INegInfinity, _ | _, INegInfinity => INegInfinity
  | IPosInfinity, x | x, IPosInfinity => x
  | IInt x, IInt y => IInt (Z.min x y)
  end.

Definition Math_max (a b : integral) : integral :=
  match a, b with
  | INaN, _ | _, INaN => INaN
  | IPosInfinity, _ | _, IPosInfinity => IPosInfinity
  | INegInfinity, x | x, INegInfinity => x
  | IInt x, IInt y => IInt (Z.max x y)
  end.

(** Number.prototype.toString on a value with no fractional part (below
    1e21, where the digits are written out in full). *)
Definition toString (x : integral) : string :=
  match x with
  | INaN => "NaN"
  | IPosInfinity => "Infinity"
  | INegInfinity => "-Infinity"
  | IInt z => NilZero.string_of_int (Z.to_int z)
  end.

Definition digitValue (c : ascii) : option Z :=
  let n := code c in
  if ((48 <=? n) && (n <=? 57))%N then Some (Z.of_N n - 48)%Z else None.

(** The longest run of decimal digits at the head of [s]: its value from
    [acc], how many digits were read after [n], and the rest. *)
Fixpoint readDigits (acc : Z) (n : nat) (s : string) : Z * nat * string :=
  match s with
  | EmptyString => (acc, n, s)
  | String c s' =>
      match digitValue c with
      | Some d => readDigits (10 * acc + d)%Z (S n) s'
      | None => (acc, n, s)
      end
  end.

(** An optional sign: whether it is a minus, and the rest. *)
Definition readSign (s : string) : bool * string :=
  match s with
  | String "-" s' => (true, s')
  | String "+" s' => (false, s')
  | _ => (false, s)
  end.

(** ToString of a value that is a string or undefined. *)
Definition ToString (v : option string) : string :=
  match v with
  | Some s => s
  | None => "undefined"
  end.

(** parseInt(v, 10) *)
Definition parseInt (v : option string) : number :=
  let '(neg, s) := readSign (trimStart (ToString v)) in
  let '(z, n, _) := readDigits 0 0 s in
  match n with
  | O => NaN
  | S _ => Finite (inject_Z (if neg then - z else z))
  end.

(** mantissa * 10^e as a rational *)
Definition scale10 (m e : Z) : Q :=
  match e with
  | Zneg p => Qmake m (Pos.pow 10 p)
  | _ => inject_Z (m * 10 ^ e)
  end.

(** The exponent part of a decimal literal, when one is there. *)
Definition readExponent (s : string) : Z :=
  match s with
  | String c s' =>
      if Ascii.eqb c "e" || Ascii.eqb c "E"
      then let '(neg, s1) := readSign s' in
           let '(z, n, _) := readDigits 0 0 s1 in
           match n with
           | O => 0%Z
           | S _ => if neg then (- z)%Z else z
           end
      else 0%Z
  | EmptyString => 0%Z
  end.

(** parseFloat(v): the longest prefix that is a decimal literal. *)
Definition parseFloat (v : option string) : number :=
  let '(neg, s) := readSign (trimStart (ToString v)) in
  if String.prefix "Infinity" s
  then (if neg then NegInfinity else PosInfinity)
  else
    let '(ip, ni, r1) := readDigits 0 0 s in
    let '(m, nf, r2) :=
      match r1 with
      | String "." r => readDigits ip 0 r
      | _ => (ip, O, r1)
      end in
    match (ni + nf)%nat with
    | O => NaN
    | S _ =>
        let q := scale10 m (readExponent r2 - Z.of_nat nf) in
        Finite (if neg then Qopp q else q)
    end.

End Js.

(** ** Records: plain objects used as maps from field name to text *)

(** obj[key] = value on an object literal. The name __proto__ is the
    accessor inherited from Object.prototype: its setter ignores a value
    that is a string, so such an assignment adds no property. *)
Definition set_prop (key value : string) (obj : gmap string string)
  : gmap string string :=
  if String.eqb key "__proto__" then obj else <[key := value]> obj.

(** Object.keys(obj).length > 0 *)
Definition has_keys (obj : gmap string string) : bool :=
  negb (Nat.eqb (size obj) 0).

(** ** Record decoder *)

(** The longest run of code units other than the colon, and the rest. *)
Fixpoint span_key (s : string) : string * string :=
  match s with
  | EmptyString => (EmptyString, EmptyString)
  | String c s' =>
      if Ascii.eqb c ":" then (EmptyString, s)
      else let '(k, r) := span_key s' in (String c k, r)
  end.

Fixpoint all_chars (p : ascii -> bool) (s : string) : bool :=
  match s with
  | EmptyString => true
  | String c s' => p c && all_chars p s'
  end.

(** line.match(/^([^:]+):\s(.+)$/): the two groups when the line matches.
    The first group cannot cross a colon, so it is the text before the first
    colon; one white space follows the colon; the second group is the rest
    of the line, not empty and free of line terminators. *)
Definition match_line (line : string) : option (string * string) :=
  match span_key line with
  | (EmptyString, _) => None
  | (key, String _ (String w value)) =>
      if Js.isWhiteSpace w && negb (Js.isEmpty value)
         && all_chars (fun c => negb (Js.isLineTerminator c)) value
      then Some (key, value)
      else None
  | _ => None
  end.

(** parseResponse: one record from a reply. *)
Definition parseResponse (data : string) : gmap string string :=
  fold_left
    (fun result line =>
       match match_line line with
       | Some (key, value) => set_prop (Js.toLowerCase key) value result
       | None => result
       end)
    (Js.split Js.LF data) ∅.

(** One turn of the loop of parseArrayResponse over [result] and
    [current]. *)
Definition array_step (st : list (gmap string string) * gmap string string)
  (line : string) : list (gmap string string) * gmap string string :=
  let '(result, current) := st in
  match match_line line with
  | Some (key, value) =>
      let lcKey := Js.toLowerCase key in
      let '(result, current) :=
        if String.eqb lcKey "file" && has_keys current
        then (result ++ [current], ∅)
        else (result, current) in
      (result, set_prop lcKey value current)
  | None => (result, current)
  end.

(** parseArrayResponse: the list of records of a reply. *)
Definition parseArrayResponse (data : string) : list (gmap string string) :=
  let '(result, current) :=
    fold_left array_step (Js.split Js.LF data) ([], ∅) in
  if has_keys current then result ++ [current] else result.


(** ** Entity mapper *)

Record MpdSong : Type := mkSong {
  song_file : option string;
  song_artist : option string;
  song_album : option string;
  song_title : option string;
  song_track : option string;
  song_duration : option Js.number;
  song_pos : option Js.number;
  song_id : option Js.number;
  song_time : option string
}.

Record MpdStatus : Type := mkStatus {
  st_volume : Js.number;
  st_repeat : bool;
  st_random : bool;
  st_single : bool;
  st_consume : bool;
  st_playlist : Js.number;
  st_playlistlength : Js.number;
  st_mixrampdb : Js.number;
  st_state : option string;
  st_song : option Js.number;
  st_songid : option Js.number;
  st_time : option string;
  st_elapsed : option Js.number;
  st_bitrate : option Js.number;
  st_duration : option Js.number;
  st_audio : option string;
  st_nextsong : option Js.number;
  st_nextsongid : option Js.number
}.

Record MpdStats : Type := mkStats {
  stats_artists : Js.number;
  stats_albums : Js.number;
  stats_songs : Js.number;
  stats_uptime : Js.number;
  stats_db_playtime : Js.number;
  stats_db_update : Js.number;
  stats_playtime : Js.number
}.

(** x !== undefined ? parse(x) : undefined *)
Definition if_defined (parse : option string -> Js.number) (x : option string)
  : option Js.number :=
  match x with
  | Some _ => Some (parse x)
  | None => None
  end.

(** x === [s] for a property that is a string or undefined *)
Definition is_text (x : option string) (s : string) : bool :=
  match x with
  | Some v => String.eqb v s
  | None => false
  end.

(** convertToMpdSong *)
Definition convertToMpdSong (data : gmap string string) : MpdSong :=
  {| song_file := data !! "file";
     song_artist := data !! "artist";
     song_album := data !! "album";
     song_title := data !! "title";
     song_track := data !! "track";
     song_duration := if_defined Js.parseFloat (data !! "duration");
     song_pos := if_defined Js.parseInt (data !! "pos");
     song_id := if_defined Js.parseInt (data !! "id");
     song_time := data !! "time" |}.

(** The object that status() builds from the parsed reply. *)
Definition status_of (parsed : gmap string string) : MpdStatus :=
  {| st_volume := Js.parseInt (parsed !! "volume");
     st_repeat := is_text (parsed !! "repeat") "1";
     st_random := is_text (parsed !! "random") "1";
     st_single := is_text (parsed !! "single") "1";
     st_consume := is_text (parsed !! "consume") "1";
     st_playlist := Js.parseInt (parsed !! "playlist");
     st_playlistlength := Js.parseInt (parsed !! "playlistlength");
     st_mixrampdb := Js.parseFloat (parsed !! "mixrampdb");
     st_state := parsed !! "state";
     st_song := if_defined Js.parseInt (parsed !! "song");
     st_songid := if_defined Js.parseInt (parsed !! "songid");
     st_time := parsed !! "time";
     st_elapsed := if_defined Js.parseFloat (parsed !! "elapsed");
     st_bitrate := if_defined Js.parseInt (parsed !! "bitrate");
     st_duration := if_defined Js.parseFloat (parsed !! "duration");
     st_audio := parsed !! "audio";
     st_nextsong := if_defined Js.parseInt (parsed !! "nextsong");
     st_nextsongid := if_defined Js.parseInt (parsed !! "nextsongid") |}.

(** The object that stats() builds from the parsed reply. *)
Definition stats_of (parsed : gmap string string) : MpdStats :=
  {| stats_artists := Js.parseInt (parsed !! "artists");
     stats_albums := Js.parseInt (parsed !! "albums");
     stats_songs := Js.parseInt (parsed !! "songs");
     stats_uptime := Js.parseInt (parsed !! "uptime");
     stats_db_playtime := Js.parseInt (parsed !! "db_playtime");
     stats_db_update := Js.parseInt (parsed !! "db_update");
     stats_playtime := Js.parseInt (parsed !! "playtime") |}.

(** ** Session *)

(** What a method can throw. *)
Inductive Failure : Type :=
  | NotConnected                      (* the Error thrown by cmd *)
  | NoClient                          (* TypeError: this.client is undefined *)
  | ConnectionLost                    (* the library lost the transport *)
  | CommandRejected (ack : string).   (* the daemon answered with an error *)

(** Session not connected, or transport lost. *)
Definition is_connectivity (e : Failure) : bool :=
  match e with
  | NotConnected | ConnectionLost => true
  | NoClient | CommandRejected _ => false
  end.

Inductive Outcome (A : Type) : Type :=
  | Returned (a : A)
  | Thrown (e : Failure).
Arguments Returned {A} a.
Arguments Thrown {A} e.

(** sendCommand(command) and sendCommand(command, args) *)
Record Request : Type := mkRequest {
  rq_command : string;
  rq_args : option (list string)
}.

(** What the library was asked to do, in order. *)
Inductive Event : Type :=
  | EvConnect (host : string) (port : Z)
  | EvClose
  | EvSend (r : Request).

(** The object MPD.connect resolves to. *)
Record Client : Type := mkClient {
  close_is_function : bool
}.

(** The library and the daemon behind it: what each call answers after the
    calls made so far. *)
Record World : Type := mkWorld {
  mpd_connect : list Event -> string -> Z -> Outcome Client;
  mpd_close : list Event -> Outcome unit;
  mpd_sendCommand : list Event -> Request -> Outcome string
}.

(** A line of console.error: the text and the error printed after it. *)
Definition LogLine : Type := string * option Failure.

(** The fields of MpdClientImpl, with the calls made and the console. *)
Record Session : Type := mkSession {
  host : string;
  port : Z;
  connected : bool;
  client : option Client;
  wire : list Event;
  console : list LogLine
}.

Definition new_session (h : string) (p : Z) : Session :=
  {| host := h; port := p; connected := false; client := None;
     wire := []; console := [] |}.

Definition set_connected (b : bool) (s : Session) : Session :=
  {| host := host s; port := port s; connected := b; client := client s;
     wire := wire s; console := console s |}.

Definition set_client (c : Client) (s : Session) : Session :=
  {| host := host s; port := port s; connected := connected s;
     client := Some c; wire := wire s; console := console s |}.

Definition add_event (e : Event) (s : Session) : Session :=
  {| host := host s; port := port s; connected := connected s;
     client := client s; wire := wire s ++ [e]; console := console s |}.

Definition add_log (l : LogLine) (s : Session) : Session :=
  {| host := host s; port := port s; connected := connected s;
     client := client s; wire := wire s; console := console s ++ [l] |}.

(** A method body: from the session to an outcome and the session after. *)
Definition M (A : Type) : Type := Session -> Outcome A * Session.

Definition ret {A} (a : A) : M A := fun s => (Returned a, s).

Definition throw {A} (e : Failure) : M A := fun s => (Thrown e, s).

Definition bind {A B} (m : M A) (k : A -> M B) : M B :=
  fun s =>
    match m s with
    | (Returned a, s') => k a s'
    | (Thrown e, s') => (Thrown e, s')
    end.

(** try { body } catch (error) { handler } *)
Definition try_catch {A} (body : M A) (handler : Failure -> M A) : M A :=
  fun s =>
    match body s with
    | (Returned a, s') => (Returned a, s')
    | (Thrown e, s') => handler e s'
    end.

Notation "'let*' x := m 'in' k" := (bind m (fun x => k))
  (at level 10, x name, m at level 100, k at level 200).
Notation "m ;> k" := (bind m (fun _ => k))
  (at level 100, k at level 200, right associativity).

(** console.error(text) and console.error(text, error) *)
Definition console_error (text : string) (err : option Failure) : M unit :=
  fun s => (Returned tt, add_log (text, err) s).

Section Client.

Variable w : World.

(** connect *)
Definition connect : M unit := fun s =>
  if connected s then (Returned tt, s)
  else
    let s1 := add_event (EvConnect (host s) (port s)) s in
    match mpd_connect w (wire s) (host s) (port s) with
    | Returned c => (Returned tt, set_connected true (set_client c s1))
    | Thrown err => (Thrown err, set_connected false s1)
    end.

(** await this.client.close() *)
Definition client_close : M unit := fun s =>
  (mpd_close w (wire s), add_event EvClose s).

(** disconnect *)
Definition disconnect : M unit := fun s =>
  if negb (connected s) then (Returned tt, s)
  else
    try_catch
      ((match client s with
        | Some c => if close_is_function c then client_close else ret tt
        | None => ret tt
        end) ;>
       fun s' => (Returned tt, set_connected false s'))
      (fun err =>
         console_error "Error disconnecting from MPD:" (Some err))
      s.

(** this.client.sendCommand(...): a TypeError when there is no client
    object, else the call of the library. *)
Definition client_sendCommand (r : Request) : M string := fun s =>
  match client s with
  | None => (Thrown NoClient, s)
  | Some _ => (mpd_sendCommand w (wire s) r, add_event (EvSend r) s)
  end.

(** !x for a property that is an object or undefined *)
Definition is_undefined {A} (x : option A) : bool :=
  match x with
  | None => true
  | Some _ => false
  end.

(** cmd: the catch clause throws what it caught. *)
Definition cmd (command : string) (args : list string) : M string :=
  fun s =>
    if negb (connected s) || is_undefined (client s)
    then (Thrown NotConnected, s)
    else
      try_catch
        (let* result := client_sendCommand (mkRequest command (Some args)) in
         ret result)
        (fun err => throw err)
        s.

(** setVolume *)
Definition setVolume (volume : Js.number) : M unit :=
  let vol :=
    Js.Math_max (Js.IInt 0) (Js.Math_min (Js.IInt 100) (Js.Math_floor volume)) in
  cmd "setvol" [Js.toString vol] ;> ret tt.

(** status *)
Definition status : M MpdStatus :=
  let* response := cmd "status" [] in
  let parsed := parseResponse response in
  ret (status_of parsed).

(** stats *)
Definition stats : M MpdStats :=
  let* response := cmd "stats" [] in
  let parsed := parseResponse response in
  ret (stats_of parsed).

(** find *)
Definition find (type query : string) : M (list MpdSong) :=
  let* response := cmd "find" [type; query] in
  let parsed := parseArrayResponse response in
  ret (map convertToMpdSong parsed).

(** list[i] of an array, undefined out of range *)
Definition item {A} (l : list A) (i : nat) : option A := nth_error l i.

(** processSearchQuery *)
Definition processSearchQuery (query : string) : string :=
  if Js.includes " - " query && Js.includes "(" query
  then
    let titlePart :=
      match item (Js.split " - " query) 1 with
      | Some part => item (Js.split " (" part) 0
      | None => None
      end in
    match titlePart with
    | Some (String c t) => Js.trim (String c t)
    | _ => query
    end
  else query.

(** The text of the command search TYPE QUERY, both in double quotes. *)
Definition search_command (type query : string) : string :=
  "search " ++ Js.quoted type ++ " " ++ Js.quoted (Js.escapeQuotes query).

(** search. The method calls itself only from the catch clause and only
    with the type any, where it does not call itself again. [depth] bounds
    the nesting of calls; with depth 0 a failure stands for the nested call,
    which [search], of depth 1, never needs: [search_depth_enough]. *)
Fixpoint search_depth (depth : nat) (type query : string)
  : M (list MpdSong) :=
  console_error ("Searching for " ++ type ++ ": " ++ Js.quoted query) None ;>
  let processedQuery := processSearchQuery query in
  console_error ("Processed query: " ++ Js.quoted processedQuery) None ;>
  try_catch
    (let command := search_command type processedQuery in
     console_error ("Search command: " ++ command) None ;>
     let* response := client_sendCommand (mkRequest command None) in
     let parsed := parseArrayResponse response in
     let results := map convertToMpdSong parsed in
     if negb (Nat.eqb (length results) 0) then ret results
     else
       let* second :=
         (if String.eqb type "title"
             && negb (String.eqb processedQuery query)
             && Js.includes "(" query
          then
            let simplifiedQuery :=
              Js.trim (default EmptyString (item (Js.split "(" query) 0)) in
            console_error
              ("No results, trying simplified title: "
               ++ Js.quoted simplifiedQuery) None ;>
            let fallbackCommand := search_command type simplifiedQuery in
            let* fallbackResponse :=
              client_sendCommand (mkRequest fallbackCommand None) in
            let fallbackParsed := parseArrayResponse fallbackResponse in
            let fallbackResults := map convertToMpdSong fallbackParsed in
            if negb (Nat.eqb (length fallbackResults) 0)
            then ret (Some fallbackResults)
            else ret None
          else ret None) in
       match second with
       | Some fallbackResults => ret fallbackResults
       | None =>
           console_error "Trying array approach" None ;>
           let* arrayResponse := cmd "search" [type; processedQuery] in
           let arrayParsed := parseArrayResponse arrayResponse in
           ret (map convertToMpdSong arrayParsed)
       end)
    (fun error =>
       console_error "MPD search error:" (Some error) ;>
       let* last :=
         (if negb (String.eqb type "any")
          then
            try_catch
              (console_error "Trying 'any' field search as last resort" None ;>
               match depth with
               | S d => let* r := search_depth d "any" query in ret (Some r)
               | O => throw NoClient
               end)
              (fun anyError =>
                 console_error "Even 'any' field search failed:"
                   (Some anyError) ;>
                 ret None)
          else ret None) in
       match last with
       | Some r => ret r
       | None =>
           console_error
             "All search attempts failed, returning empty results" None ;>
           ret []
       end).

Definition search : string -> string -> M (list MpdSong) := search_depth 1.

End Client.

(** ** The search cascade as the specification words it *)

(** How the arguments of a search command are encoded. *)
Inductive Encoding : Type :=
  | QuotedString     (* one command line, type and query in double quotes *)
  | TokenArray.      (* the command name and the list of its arguments *)

Record Attempt : Type := mkAttempt {
  at_encoding : Encoding;
  at_type : string;
  at_query : string
}.

(** The text of [s] before the first occurrence of the code unit [c]; all
    of [s] when there is none. *)
Fixpoint before_first (c : ascii) (s : string) : string :=
  match s with
  | EmptyString => EmptyString
  | String x s' => if Ascii.eqb x c then EmptyString
                   else String x (before_first c s')
  end.

(** Whether the code unit [c] occurs in [s]. *)
Fixpoint occurs (c : ascii) (s : string) : bool :=
  match s with
  | EmptyString => false
  | String x s' => Ascii.eqb x c || occurs c s'
  end.

(** The attempts of one pass, in order: the primary attempt, the
    title-decoration fallback when its condition holds, the encoding
    fallback. *)
Definition cascade_plan (type query : string) : list Attempt :=
  let effective := processSearchQuery query in
  [mkAttempt QuotedString type effective]
  ++ (if String.eqb type "title"
         && negb (String.eqb effective query)
         && occurs "(" query
      then [mkAttempt QuotedString type (Js.trim (before_first "(" query))]
      else [])
  ++ [mkAttempt TokenArray type effective].

(** The request an attempt puts on the wire. *)
Definition attempt_request (a : Attempt) : Request :=
  match at_encoding a with
  | QuotedString =>
      mkRequest (search_command (at_type a) (at_query a)) None
  | TokenArray =>
      mkRequest "search" (Some [at_type a; at_query a])
  end.

Section Cascade.

Variable w : World.

(** One attempt: the command in its encoding, and the songs decoded from
    the reply. The quoted command goes to the client object directly, the
    token array through cmd. *)
Definition run_attempt (a : Attempt) : M (list MpdSong) :=
  let* reply :=
    match at_encoding a with
    | QuotedString => client_sendCommand w (attempt_request a)
    | TokenArray => cmd w "search" [at_type a; at_query a]
    end in
  ret (map convertToMpdSong (parseArrayResponse reply)).

(** The attempts in order, ending at the first result that is not empty
    (or at the first failure); the empty list when all are empty. *)
Fixpoint run_cascade (plan : list Attempt) : M (list MpdSong) :=
  match plan with
  | [] => ret []
  | a :: rest =>
      let* songs := run_attempt a in
      match songs with
      | [] => run_cascade rest
      | _ :: _ => ret songs
      end
  end.

(** The body of the try block of search and its catch clause, named for
    the proofs: see [search_depth_unfold]. *)
Definition search_try (type query : string) : M (list MpdSong) :=
  let processedQuery := processSearchQuery query in
  let command := search_command type processedQuery in
  console_error ("Search command: " ++ command) None ;>
  let* response := client_sendCommand w (mkRequest command None) in
  let parsed := parseArrayResponse response in
  let results := map convertToMpdSong parsed in
  if negb (Nat.eqb (length results) 0) then ret results
  else
    let* second :=
      (if String.eqb type "title"
          && negb (String.eqb processedQuery query)
          && Js.includes "(" query
       then
         let simplifiedQuery :=
           Js.trim (default EmptyString (item (Js.split "(" query) 0)) in
         console_error
           ("No results, trying simplified title: "
            ++ Js.quoted simplifiedQuery) None ;>
         let fallbackCommand := search_command type simplifiedQuery in
         let* fallbackResponse :=
           client_sendCommand w (mkRequest fallbackCommand None) in
         let fallbackParsed := parseArrayResponse fallbackResponse in
         let fallbackResults := map convertToMpdSong fallbackParsed in
         if negb (Nat.eqb (length fallbackResults) 0)
         then ret (Some fallbackResults)
         else ret None
       else ret None) in
    match second with
    | Some fallbackResults => ret fallbackResults
    | None =>
        console_error "Trying array approach" None ;>
        let* arrayResponse := cmd w "search" [type; processedQuery] in
        let arrayParsed := parseArrayResponse arrayResponse in
        ret (map convertToMpdSong arrayParsed)
    end.

Definition search_catch (depth : nat) (type query : string)
  (error : Failure) : M (list MpdSong) :=
  console_error "MPD search error:" (Some error) ;>
  let* last :=
    (if negb (String.eqb type "any")
     then
       try_catch
         (console_error "Trying 'any' field search as last resort" None ;>
          match depth with
          | S d => let* r := search_depth w d "any" query in ret (Some r)
          | O => throw NoClient
          end)
         (fun anyError =>
            console_error "Even 'any' field search failed:"
              (Some anyError) ;>
            ret None)
     else ret None) in
  match last with
  | Some r => ret r
  | None =>
      console_error
        "All search attempts failed, returning empty results" None ;>
      ret []
  end.

End Cascade.

(** Two sessions that differ at most in what was written to the console. *)
Definition same_but_console (s t : Session) : Prop :=
  host s = host t /\ port s = port t /\ connected s = connected t
  /\ client s = client t /\ wire s = wire t.

(** Two method bodies that, from such sessions, end with the same outcome
    in such sessions. *)
Definition sim {A} (m m' : M A) : Prop :=
  forall s t, same_but_console s t ->
    fst (m s) = fst (m' t) /\ same_but_console (snd (m s)) (snd (m' t)).

(** What search does with the passes of the cascade: a failure of the first
    pass is caught; with a type other than any a second pass runs with the
    type any and the raw query, and a failure of it is caught as well. *)
Definition resolve (w : World) (type query : string) : M (list MpdSong) :=
  try_catch (run_cascade w (cascade_plan type query))
    (fun _ =>
       if String.eqb type "any" then ret []
       else try_catch (run_cascade w (cascade_plan "any" query))
                      (fun _ => ret [])).

(** ** Notions of the properties: the session *)

(** The close of the client raises [e]: there is a client object with a
    close function, and the call fails. *)
Definition close_raises (w : World) (s : Session) (e : Failure) : Prop :=
  exists c, client s = Some c /\ close_is_function c = true
            /\ mpd_close w (wire s) = Thrown e.

(** ** Notions of the properties: numeric fields *)

(** The numeric fields of the three entities, each with the field of the
    record it is read from. *)
Inductive StatusField : Type :=
  | SVolume | SPlaylist | SPlaylistlength | SMixrampdb
  | SSong | SSongid | SElapsed | SBitrate | SDuration | SNextsong | SNextsongid.

Inductive StatsField : Type :=
  | TArtists | TAlbums | TSongs | TUptime | TDbPlaytime | TDbUpdate | TPlaytime.

Inductive SongField : Type :=
  | GDuration | GPos | GId.

Definition status_source (f : StatusField) : string :=
  match f with
  | SVolume => "volume" | SPlaylist => "playlist"
  | SPlaylistlength => "playlistlength" | SMixrampdb => "mixrampdb"
  | SSong => "song" | SSongid => "songid" | SElapsed => "elapsed"
  | SBitrate => "bitrate" | SDuration => "duration"
  | SNextsong => "nextsong" | SNextsongid => "nextsongid"
  end.

(** The fields MpdStatus declares without a question mark. *)
Definition status_required (f : StatusField) : bool :=
  match f with
  | SVolume | SPlaylist | SPlaylistlength | SMixrampdb => true
  | _ => false
  end.

(** The destination field: None when the property is undefined. *)
Definition status_field (f : StatusField) (st : MpdStatus) : option Js.number :=
  match f with
  | SVolume => Some (st_volume st) | SPlaylist => Some (st_playlist st)
  | SPlaylistlength => Some (st_playlistlength st)
  | SMixrampdb => Some (st_mixrampdb st)
  | SSong => st_song st | SSongid => st_songid st | SElapsed => st_elapsed st
  | SBitrate => st_bitrate st | SDuration => st_duration st
  | SNextsong => st_nextsong st | SNextsongid => st_nextsongid st
  end.

Definition stats_source (f : StatsField) : string :=
  match f with
  | TArtists => "artists" | TAlbums => "albums" | TSongs => "songs"
  | TUptime => "uptime" | TDbPlaytime => "db_playtime"
  | TDbUpdate => "db_update" | TPlaytime => "playtime"
  end.

Definition stats_field (f : StatsField) (st : MpdStats) : Js.number :=
  match f with
  | TArtists => stats_artists st | TAlbums => stats_albums st
  | TSongs => stats_songs st | TUptime => stats_uptime st
  | TDbPlaytime => stats_db_playtime st | TDbUpdate => stats_db_update st
  | TPlaytime => stats_playtime st
  end.

Definition song_source (f : SongField) : string :=
  match f with
  | GDuration => "duration" | GPos => "pos" | GId => "id"
  end.

Definition song_field (f : SongField) (song : MpdSong) : option Js.number :=
  match f with
  | GDuration => song_duration song | GPos => song_pos song
  | GId => song_id song
  end.

(** ** Notions of the properties: lines, fields and blocks *)

(** No occurrence of [sep] starts inside [a] when [b] follows it. *)
Fixpoint no_start (sep a b : string) : bool :=
  match a with
  | EmptyString => true
  | String c a' =>
      negb (String.prefix sep (String c a' ++ b)) && no_start sep a' b
  end.

(** The line feed as a code unit. *)
Definition LFc : ascii := ascii_of_N 10.

(** The line Key: Value of a field. *)
Definition field_line (f : string * string) : string :=
  fst f ++ ": " ++ snd f.

(** A field name as a line can carry it: not empty, without a colon and
    without a line feed. *)
Definition is_key (k : string) : bool :=
  negb (Js.isEmpty k) && negb (occurs ":" k) && negb (occurs LFc k).

(** A field value as a line can carry it: not empty and without a line
    terminator. *)
Definition is_value (v : string) : bool :=
  negb (Js.isEmpty v) && all_chars (fun c => negb (Js.isLineTerminator c)) v.

(** The value of the last line of the shape Key: Value whose key, in lower
    case, is [k]. *)
Fixpoint last_value (k : string) (lines : list string) : option string :=
  match lines with
  | [] => None
  | line :: rest =>
      match last_value k rest with
      | Some v => Some v
      | None =>
          match match_line line with
          | Some (key, value) =>
              if String.eqb (Js.toLowerCase key) k then Some value else None
          | None => None
          end
      end
  end.

(** A block of a listing: the line of its file field, then the lines of
    its other fields. *)
Record Block : Type := mkBlock {
  blk_file : string;
  blk_others : list (string * string)
}.

Definition block_lines (b : Block) : list string :=
  field_line ("file", blk_file b) :: map field_line (blk_others b).

(** The fields of a block under their lower-cased names. *)
Definition block_fields (b : Block) : list (string * string) :=
  ("file", blk_file b)
  :: map (fun f => (Js.toLowerCase (fst f), snd f)) (blk_others b).

(** A field of a block besides file: a key and a value that a line can
    carry; the name is not file, and not __proto__, which no plain object
    stores. *)
Definition other_ok (f : string * string) : bool :=
  is_key (fst f) && is_value (snd f)
  && negb (String.eqb (Js.toLowerCase (fst f)) "file")
  && negb (String.eqb (Js.toLowerCase (fst f)) "__proto__").

(** A block with at least one field besides file. *)
Definition block_ok (b : Block) : bool :=
  is_value (blk_file b)
  && negb (Nat.eqb (length (blk_others b)) 0)
  && forallb other_ok (blk_others b).

(** The record with exactly the fields of a block; of two fields with one
    name the later one counts. *)
Definition block_record (b : Block) : gmap string string :=
  list_to_map (reverse (block_fields b)).

(** The text of a listing: the lines of its blocks, one after the other. *)
Definition listing_text (blocks : list Block) : string :=
  String.concat Js.LF (concat (map block_lines blocks)).

(** The loop of parseArrayResponse over lines. *)
Definition array_loop (lines : list string)
  : list (gmap string string) * gmap string string :=
  fold_left array_step lines ([], ∅).

(** ** Notions of the properties: decorated queries *)

(** The shape LEFT - RIGHT (TAIL of a decorated query. *)
Definition decorated (query left right tail : string) : Prop :=
  query = (left ++ " - " ++ right ++ " (" ++ tail)%string.

(** Whether some occurrence of the hyphen between spaces is followed,
    anywhere after it, by a space and an opening parenthesis: what every
    query of the shape does. *)
Fixpoint has_shape (q : string) : bool :=
  match q with
  | EmptyString => false
  | String _ q' =>
      match q with
      | String " " (String "-" (String " " rest)) => Js.includes " (" rest
      | _ => false
      end || has_shape q'
  end.

(** ** Sessions, daemons and texts of the scenarios *)

(** A session after a connect that succeeded. *)
Definition connected_session : Session :=
  {| host := "localhost"; port := 6600; connected := true;
     client := Some (mkClient true); wire := []; console := [] |}.

(** A session after a disconnect: the client object is still there. *)
Definition closed_session : Session :=
  {| host := "localhost"; port := 6600; connected := false;
     client := Some (mkClient true); wire := []; console := [] |}.

(** A daemon that answers every command with an empty reply. *)
Definition silent_world : World :=
  {| mpd_connect := fun _ _ _ => Returned (mkClient true);
     mpd_close := fun _ => Returned tt;
     mpd_sendCommand := fun _ _ => Returned EmptyString |}.

(** A daemon that rejects every command. *)
Definition rejecting_world : World :=
  {| mpd_connect := fun _ _ _ => Returned (mkClient true);
     mpd_close := fun _ => Returned tt;
     mpd_sendCommand := fun _ _ => Thrown (CommandRejected "ACK") |}.

(** The library as the tests of the client mock it, for the commands
    status and search. *)
Definition mock_world : World :=
  {| mpd_connect := fun _ _ _ => Returned (mkClient true);
     mpd_close := fun _ => Returned tt;
     mpd_sendCommand := fun _ r =>
       if String.eqb (rq_command r) "status"
       then Returned
              (String.concat Js.LF
                 ["volume: 50"; "repeat: 1"; "random: 0"; "single: 0";
                  "consume: 0"; "playlist: 1"; "playlistlength: 2";
                  "mixrampdb: 0"; "state: play"; "song: 0"; "songid: 1";
                  "time: 30:180"; "elapsed: 30"; "bitrate: 320";
                  "duration: 180"; "audio: 44100:16:2"])
       else if String.eqb (rq_command r) "search"
               && bool_decide (rq_args r = Some ["artist"; "Test Artist 1"])
       then Returned
              (String.concat Js.LF
                 ["file: test1.mp3"; "Artist: Test Artist 1";
                  "Album: Test Album 1"; "Title: Test Song 1"])
       else Returned EmptyString |}.

(** A transport that is lost: every call of the library fails. *)
Definition lost_world : World :=
  {| mpd_connect := fun _ _ _ => Thrown ConnectionLost;
     mpd_close := fun _ => Thrown ConnectionLost;
     mpd_sendCommand := fun _ _ => Thrown ConnectionLost |}.

(** A reply with a repeated key, a key in upper case and a line of another
    shape. *)
Definition sample_reply : string :=
  "volume: 50" ++ Js.LF ++ "Repeat: 1" ++ Js.LF ++ "no field here"
  ++ Js.LF ++ "Volume: 60".

(** The listing of two songs that the tests of the client use. *)
Definition two_songs : list Block :=
  [mkBlock "test1.mp3" [("Artist", "Test Artist 1"); ("Title", "Test Song 1")];
   mkBlock "test2.mp3" [("Artist", "Test Artist 2"); ("Title", "Test Song 2")]].

(** The query of the search scenario. *)
Definition be_quiet : string := "Be Quiet and Drive (Far Away)".

(** ** The other methods of the client *)

(** An entry of listPlaylists. *)
Record PlaylistEntry : Type := mkPlaylistEntry {
  pl_playlist : option string;
  pl_lastModified : option string
}.

(** A property that is a string or undefined, as a condition: undefined
    and the empty string are false. *)
Definition truthy (x : option string) : bool :=
  match x with
  | Some (String _ _) => true
  | _ => false
  end.

(** The text of the command add URI, the URI in double quotes. *)
Definition add_command (uri : string) : string :=
  "add " ++ Js.quoted (Js.escapeQuotes uri).

Section Dispatcher.

Variable w : World.

(** Number.prototype.toString on any number. *)
Variable numberToString : Js.number -> string.

(** play *)
Definition play (position : option Js.number) : M unit :=
  cmd w "play"
    (match position with
     | Some p => [numberToString p]
     | None => []
     end) ;>
  ret tt.

(** pause *)
Definition pause : M unit := cmd w "pause" ["1"] ;> ret tt.

(** stop *)
Definition stop : M unit := cmd w "stop" [] ;> ret tt.

(** next *)
Definition next : M unit := cmd w "next" [] ;> ret tt.

(** previous *)
Definition previous : M unit := cmd w "previous" [] ;> ret tt.

(** seek *)
Definition seek (songPosition timePosition : Js.number) : M unit :=
  cmd w "seek" [numberToString songPosition; numberToString timePosition] ;>
  ret tt.

(** setRepeat *)
Definition setRepeat (repeat : bool) : M unit :=
  cmd w "repeat" [if repeat then "1" else "0"] ;> ret tt.

(** setRandom *)
Definition setRandom (random : bool) : M unit :=
  cmd w "random" [if random then "1" else "0"] ;> ret tt.

(** setSingle *)
Definition setSingle (single : bool) : M unit :=
  cmd w "single" [if single then "1" else "0"] ;> ret tt.

(** setConsume *)
Definition setConsume (consume : bool) : M unit :=
  cmd w "consume" [if consume then "1" else "0"] ;> ret tt.

(** currentSong: null is None. *)
Definition currentSong : M (option MpdSong) :=
  let* response := cmd w "currentsong" [] in
  if Js.isEmpty response then ret None
  else
    let parsed := parseResponse response in
    if Nat.eqb (size parsed) 0 then ret None
    else ret (Some (convertToMpdSong parsed)).

(** playlistInfo *)
Definition playlistInfo : M (list MpdSong) :=
  let* response := cmd w "playlistinfo" [] in
  let parsed := parseArrayResponse response in
  ret (map convertToMpdSong parsed).

(** playlistAdd, with its two encodings (the later version of the
    client). The error of the first attempt is printed inside the text of
    the console line. *)
Definition playlistAdd (uri : string) : M unit :=
  try_catch
    (cmd w "add" [uri] ;> ret tt)
    (fun error =>
       console_error "Error with array approach: " (Some error) ;>
       try_catch
         (client_sendCommand w (mkRequest (add_command uri) None) ;> ret tt)
         (fun fallbackError =>
            console_error "Error with fallback approach: "
              (Some fallbackError) ;>
            throw error)).

(** playlistDelete *)
Definition playlistDelete (position : Js.number) : M unit :=
  cmd w "delete" [numberToString position] ;> ret tt.

(** playlistClear *)
Definition playlistClear : M unit := cmd w "clear" [] ;> ret tt.

(** listAllInfo: the path is the empty string when it is not given. *)
Definition listAllInfo (path : option string) : M (list MpdSong) :=
  let path := default EmptyString path in
  let* response :=
    cmd w "listallinfo" (if negb (Js.isEmpty path) then [path] else []) in
  let parsed := parseArrayResponse response in
  ret (map convertToMpdSong
         (List.filter (fun item : gmap string string => truthy (item !! "file"))
            parsed)).

(** listPlaylists *)
Definition listPlaylists : M (list PlaylistEntry) :=
  let* response := cmd w "listplaylists" [] in
  let parsed := parseArrayResponse response in
  ret (map (fun item : gmap string string =>
              {| pl_playlist := item !! "playlist";
                 pl_lastModified := item !! "last-modified" |})
           parsed).

End Dispatcher.

(** The methods that the earlier version of the client, client.ts, words
    in another way. *)
Module ClientTs.

Section Earlier.

Variable w : World.

(** playlistAdd *)
Definition playlistAdd (uri : string) : M unit :=
  cmd w "add" [uri] ;> ret tt.

(** search: the raw query, quoted; the token array when that fails. *)
Definition search (type query : string) : M (list MpdSong) :=
  console_error ("Searching for " ++ type ++ ": " ++ Js.quoted query) None ;>
  try_catch
    (let command := search_command type query in
     let* response := client_sendCommand w (mkRequest command None) in
     let parsed := parseArrayResponse response in
     ret (map convertToMpdSong parsed))
    (fun error =>
       console_error "MPD search error:" (Some error) ;>
       try_catch
         (let* response := cmd w "search" [type; query] in
          let parsed := parseArrayResponse response in
          ret (map convertToMpdSong parsed))
         (fun fallbackError =>
            console_error "MPD fallback search error:" (Some fallbackError) ;>
            throw error)).

End Earlier.

End ClientTs.

(** ** The volume tool of the server *)

Module Server.

(** isNaN(x) *)
Definition isNaN (x : Js.number) : bool :=
  match x with
  | Js.NaN => true
  | _ => false
  end.

(** a < b on numbers: false as soon as one of them is NaN. *)
Definition lt (a b : Js.number) : bool :=
  match a, b with
  | Js.NaN, _ | _, Js.NaN => false
  | _, Js.NegInfinity => false
  | Js.NegInfinity, _ => true
  | Js.PosInfinity, _ => false
  | Js.Finite _, Js.PosInfinity => true
  | Js.Finite x, Js.Finite y => negb (Qle_bool y x)
  end.

(** a > b *)
Definition gt (a b : Js.number) : bool := lt b a.

(** new Error(text + error.message), or new Error(text): the text, and the
    error whose message ends it. *)
Record ToolError : Type := mkToolError {
  te_text : string;
  te_cause : option Failure
}.

(** What a tool gives to the handler: its content, or the error it
    throws. *)
Inductive Reply (A : Type) : Type :=
  | Content (a : A)
  | Raised (e : ToolError).
Arguments Content {A} a.
Arguments Raised {A} e.

Section Tools.

Variable w : World.

(** The constants MPD_HOST and MPD_PORT of the server. *)
Variable MPD_HOST : string.
Variable MPD_PORT : Js.number.

(** The text of a number in a template literal. *)
Variable numberToString : Js.number -> string.

(** ensureConnected: the flag read is that of the client. *)
Definition ensureConnected : Session -> Reply unit * Session := fun s =>
  if negb (connected s) then
    match connect w s with
    | (Returned _, s1) =>
        (Content tt,
         add_log (("Connected to MPD server at " ++ MPD_HOST ++ ":"
                   ++ numberToString MPD_PORT)%string, None) s1)
    | (Thrown error, s1) =>
        (Raised (mkToolError "Failed to connect to MPD server: " (Some error)),
         add_log ("Failed to connect to MPD server:", Some error) s1)
    end
  else (Content tt, s).

(** The case volume_control of the switch of the tool handler, from the
    number that Number(...) made of the argument: the text of the content,
    or the error. *)
Definition volume_case (volume : Js.number)
  : Session -> Reply string * Session := fun s =>
  if isNaN volume || lt volume (Js.Finite 0) || gt volume (Js.Finite 100)
  then (Raised (mkToolError "Volume must be a number between 0 and 100" None),
        s)
  else
    match setVolume w volume s with
    | (Returned _, s1) =>
        (Content ("Volume set to " ++ numberToString volume ++ "%")%string,
         s1)
    | (Thrown error, s1) =>
        (Raised (mkToolError "Error setting volume: " (Some error)), s1)
    end.

(** The catch of the tool handler: it prints the error and throws it
    again. The line of the console holds the text of the handler followed
    by the message of the error up to that of its cause, and the cause. *)
Definition handler_catch {A} (r : Reply A * Session) : Reply A * Session :=
  match r with
  | (Content a, s) => (Content a, s)
  | (Raised e, s) =>
      (Raised e,
       add_log (("Error in CallToolRequestSchema handler: " ++ te_text e)%string,
                te_cause e) s)
  end.

(** The tool handler called with the name volume_control: inside its try,
    ensureConnected and then the case of the switch. *)
Definition volume_control (volume : Js.number)
  : Session -> Reply string * Session := fun s =>
  handler_catch
    match ensureConnected s with
    | (Content _, s1) => volume_case volume s1
    | (Raised e, s1) => (Raised e, s1)
    end.

End Tools.

End Server.

(** ** Notions and scenarios of the other methods *)

(** The fields of the session other than the wire and the console. *)
Definition same_fields (s t : Session) : Prop :=
  host s = host t /\ port s = port t /\ connected s = connected t
  /\ client s = client t.

(** The loop of parseArrayResponse keeps: every record of the result has
    a field; every record but the first has a file; once the result has a
    record, the current one has a file; no value is empty. *)
Definition array_inv (st : list (gmap string string) * gmap string string)
  : Prop :=
  Forall (fun r => has_keys r = true) st.1
  /\ Forall (fun r : gmap string string => is_Some (r !! "file")) (tail st.1)
  /\ (st.1 <> [] -> is_Some (st.2 !! "file"))
  /\ Forall (fun r : gmap string string =>
               forall k v, r !! k = Some v -> v <> EmptyString) (st.2 :: st.1).

(** The reply to listplaylists of the tests of the client. *)
Definition two_playlists : string :=
  String.concat Js.LF
    ["playlist: Test Playlist 1"; "last-modified: 2023-01-01T00:00:00Z";
     "playlist: Test Playlist 2"; "last-modified: 2023-01-02T00:00:00Z"].

Definition playlists_world : World :=
  {| mpd_connect := fun _ _ _ => Returned (mkClient true);
     mpd_close := fun _ => Returned tt;
     mpd_sendCommand := fun _ r =>
       if String.eqb (rq_command r) "listplaylists"
       then Returned two_playlists else Returned EmptyString |}.

(** A listing that starts with a directory entry. *)
Definition directory_listing : string :=
  String.concat Js.LF ["directory: Music"; "file: a.mp3"; "Title: A"].

(** A daemon that rejects a command given as a name and a token array,
    and accepts a command given as one text. *)
Definition token_rejecting_world : World :=
  {| mpd_connect := fun _ _ _ => Returned (mkClient true);
     mpd_close := fun _ => Returned tt;
     mpd_sendCommand := fun _ r =>
       match rq_args r with
       | Some _ => Thrown (CommandRejected "ACK")
       | None => Returned EmptyString
       end |}.

(** A daemon that answers every command with the same reply. *)
Definition reply_world (reply : string) : World :=
  {| mpd_connect := fun _ _ _ => Returned (mkClient true);
     mpd_close := fun _ => Returned tt;
     mpd_sendCommand := fun _ _ => Returned reply |}.

(** * Properties *)

(** ** Strings *)

Lemma append_empty_r s : (s ++ EmptyString)%string = s.
Proof. induction s as [|c s IH]; [done|]. change (String c (s ++ EmptyString) = String c s). by rewrite IH. Qed.

Lemma append_cons c (a b : string) : (String c a ++ b)%string = String c (a ++ b).
Proof. reflexivity. Qed.

Lemma append_assoc (a b c : string) : ((a ++ b) ++ c)%string = (a ++ b ++ c)%string.
Proof. induction a as [|x a IH]; [done|]. by rewrite !append_cons, IH. Qed.

Lemma prefix_app s t : String.prefix s (s ++ t) = true.
Proof.
  induction s as [|c s IH]; simpl; [by destruct t|].
  by destruct (ascii_dec c c).
Qed.

Lemma includes_prefix sub s :
  String.prefix sub s = true -> Js.includes sub s = true.
Proof. intros H. destruct s; cbn [Js.includes]; by rewrite H. Qed.

Lemma includes_app sub a b : Js.includes sub (a ++ sub ++ b) = true.
Proof.
  induction a as [|c a IH].
  - apply includes_prefix. apply (prefix_app sub b).
  - change (Js.includes sub (String c (a ++ sub ++ b)) = true).
    cbn [Js.includes]. rewrite IH. apply orb_true_r.
Qed.

Lemma includes_false_tail sub c s :
  Js.includes sub (String c s) = false ->
  String.prefix sub (String c s) = false /\ Js.includes sub s = false.
Proof. simpl. intros H. by apply orb_false_iff in H. Qed.

(** Passing over the rest of a separator that was found. *)
Lemma split_scan_skip sep x b :
  Js.split_scan sep (String.length x) (x ++ b) = Js.split_scan sep 0 b.
Proof. induction x as [|c x IH]; simpl; done. Qed.

(** A separator at the head ends the piece. *)
Lemma split_scan_hit c sep b :
  Js.split_scan (String c sep) 0 (String c sep ++ b)
  = (EmptyString, Js.split (String c sep) b).
Proof.
  change (String c sep ++ b)%string with (String c (sep ++ b)).
  cbn [Js.split_scan].
  change (String c (sep ++ b)) with (String c sep ++ b)%string.
  rewrite prefix_app.
  replace (String.length (String c sep) - 1) with (String.length sep)
    by (simpl; lia).
  rewrite split_scan_skip. reflexivity.
Qed.

(** Code units where no separator starts go to the piece. *)
Lemma split_scan_clear sep a b :
  no_start sep a b = true ->
  Js.split_scan sep 0 (a ++ b)
  = ((a ++ fst (Js.split_scan sep 0 b))%string,
     snd (Js.split_scan sep 0 b)).
Proof.
  induction a as [|c a IH]; intros H.
  - change (EmptyString ++ b)%string with b.
    change (EmptyString ++ fst (Js.split_scan sep 0 b))%string
      with (fst (Js.split_scan sep 0 b)).
    destruct (Js.split_scan sep 0 b); reflexivity.
  - cbn [no_start] in H. apply andb_true_iff in H as [H1 H2].
    apply negb_true_iff in H1.
    change (String c a ++ b)%string with (String c (a ++ b)) in *.
    cbn [Js.split_scan]. rewrite H1, (IH H2). reflexivity.
Qed.

Lemma split_clear_hit c sep a b :
  no_start (String c sep) a (String c sep ++ b) = true ->
  Js.split (String c sep) (a ++ String c sep ++ b)
  = a :: Js.split (String c sep) b.
Proof.
  intros H. unfold Js.split at 1. rewrite (split_scan_clear _ _ _ H).
  rewrite split_scan_hit. simpl. by rewrite append_empty_r.
Qed.

Lemma split_clear sep a :
  no_start sep a EmptyString = true -> Js.split sep a = [a].
Proof.
  intros H. unfold Js.split. rewrite <- (append_empty_r a) at 1.
  rewrite (split_scan_clear _ _ _ H). simpl. by rewrite append_empty_r.
Qed.

(** A text free of the code unit [c] has no start of a separator that
    begins with [c]. *)
Lemma no_start_char c sep a b :
  occurs c a = false -> no_start (String c sep) a b = true.
Proof.
  induction a as [|x a IH]; [done|]. cbn [occurs no_start].
  intros H. apply orb_false_iff in H as [H1 H2]. rewrite (IH H2), andb_true_r.
  rewrite append_cons. cbn [String.prefix].
  destruct (ascii_dec c x) as [->|]; [by rewrite Ascii.eqb_refl in H1|done].
Qed.

(** The lines of a text that was joined from lines. *)
Lemma split_concat_lines (l : string) (ls : list string) :
  Forall (fun x => occurs LFc x = false) (l :: ls) ->
  Js.split Js.LF (String.concat Js.LF (l :: ls)) = l :: ls.
Proof.
  revert l. induction ls as [|l' ls IH]; intros l H.
  - apply split_clear, no_start_char. by inversion H.
  - change (String.concat Js.LF (l :: l' :: ls))
      with (l ++ Js.LF ++ String.concat Js.LF (l' :: ls))%string.
    inversion H as [|? ? Hl Hls]; subst. unfold Js.LF at 1 2.
    rewrite split_clear_hit by (by apply no_start_char).
    fold Js.LF. by rewrite IH.
Qed.

Lemma append_nil_l (s : string) : (EmptyString ++ s)%string = s.
Proof. reflexivity. Qed.

Lemma prefix_nil s : String.prefix EmptyString s = true.
Proof. by destruct s. Qed.

Lemma occurs_includes c s : Js.includes (String c EmptyString) s = occurs c s.
Proof.
  induction s as [|x s IH]; simpl.
  - reflexivity.
  - rewrite IH. destruct (ascii_dec c x) as [->|Hne].
    + rewrite Ascii.eqb_refl. by destruct s.
    + assert (Ascii.eqb x c = false) as -> by (apply Ascii.eqb_neq; congruence).
      reflexivity.
Qed.

Lemma split_scan_char_head c s :
  fst (Js.split_scan (String c EmptyString) 0 s) = before_first c s.
Proof.
  induction s as [|x s IH]; simpl; [reflexivity|].
  destruct (ascii_dec c x) as [->|Hne].
  - rewrite Ascii.eqb_refl. by destruct s.
  - assert (Ascii.eqb x c = false) as -> by (apply Ascii.eqb_neq; congruence).
    destruct (Js.split_scan _ 0 s). simpl in *. by f_equal.
Qed.

Lemma split_char_item0 c s :
  item (Js.split (String c EmptyString) s) 0 = Some (before_first c s).
Proof.
  unfold Js.split. rewrite <- split_scan_char_head.
  by destruct (Js.split_scan _ 0 s).
Qed.

(** ** The record decoder *)

Lemma span_key_field k rest :
  occurs ":" k = false ->
  span_key (k ++ String ":" rest) = (k, String ":" rest).
Proof.
  induction k as [|c k IH]; [done|]. cbn [occurs]. intros H.
  apply orb_false_iff in H as [H1 H2]. rewrite append_cons.
  cbn [span_key]. by rewrite H1, (IH H2).
Qed.

Lemma span_key_spec s k rest :
  span_key s = (k, rest) ->
  s = (k ++ rest)%string /\ occurs ":" k = false
  /\ (rest = EmptyString \/ exists r, rest = String ":" r).
Proof.
  revert k rest. induction s as [|c s IH]; intros k rest.
  - intros [= <- <-]. auto.
  - cbn [span_key]. destruct (Ascii.eqb c ":") eqn:E.
    + apply Ascii.eqb_eq in E as ->. intros [= <- <-]. eauto.
    + destruct (span_key s) as [k' r'].
      destruct (IH k' r' eq_refl) as (-> & Hk & Hr).
      intros [= <- <-]. cbn [occurs]. by rewrite E, Hk.
Qed.

(** The shape Key: Value: a key that is not empty and holds no colon, the
    colon, one white space, and a value that is not empty and holds no line
    terminator. *)
Lemma match_line_shape line key value :
  match_line line = Some (key, value)
  <-> exists w, line = (key ++ String ":" (String w value))%string
               /\ Js.isEmpty key = false /\ occurs ":" key = false
               /\ Js.isWhiteSpace w = true /\ is_value value = true.
Proof.
  unfold match_line, is_value. split.
  - destruct (span_key line) as [k rest] eqn:E.
    apply span_key_spec in E as (-> & Hk & Hr).
    destruct k as [|c k]; [done|].
    destruct Hr as [->|[r ->]]; [done|].
    destruct r as [|w v]; [done|].
    destruct (Js.isWhiteSpace w) eqn:Hw; [|done].
    destruct (negb (Js.isEmpty v)) eqn:Hv; [|done].
    destruct (all_chars _ v) eqn:Hl; [|done].
    simpl. intros [= <- <-]. exists w. by rewrite Hv, Hl.
  - intros (w & -> & Hk & Hc & Hw & Hv). rewrite span_key_field by done.
    destruct key as [|c k]; [done|].
    apply andb_true_iff in Hv as [Hv1 Hv2]. by rewrite Hw, Hv1, Hv2.
Qed.

Lemma match_line_field k v :
  is_key k = true -> is_value v = true ->
  match_line (field_line (k, v)) = Some (k, v).
Proof.
  unfold is_key. intros Hk Hv.
  apply andb_true_iff in Hk as [Hk _]. apply andb_true_iff in Hk as [Hk1 Hk2].
  apply match_line_shape. exists " "%char.
  split; [reflexivity|]. repeat split; try done; by apply negb_true_iff.
Qed.

Lemma set_prop_insert k v (m : gmap string string) :
  k <> "__proto__" -> set_prop k v m = <[k := v]> m.
Proof.
  intros H. unfold set_prop.
  by destruct (String.eqb_spec k "__proto__").
Qed.

Lemma set_prop_lookup k v (m : gmap string string) j :
  j <> "__proto__" ->
  set_prop k v m !! j = if String.eqb k j then Some v else m !! j.
Proof.
  intros H. unfold set_prop.
  destruct (String.eqb_spec k "__proto__") as [->|Hk].
  - destruct (String.eqb_spec "__proto__" j); [congruence|done].
  - destruct (String.eqb_spec k j) as [->|Hj].
    + by rewrite lookup_insert_eq.
    + by rewrite lookup_insert_ne.
Qed.

(** The one name a record never holds. *)
Lemma set_prop_proto v (m : gmap string string) :
  set_prop "__proto__" v m = m.
Proof. reflexivity. Qed.

Lemma parse_lines_lookup lines (acc : gmap string string) k :
  k <> "__proto__" ->
  fold_left
    (fun result line =>
       match match_line line with
       | Some (key, value) => set_prop (Js.toLowerCase key) value result
       | None => result
       end) lines acc !! k
  = match last_value k lines with
    | Some v => Some v
    | None => acc !! k
    end.
Proof.
  intros Hk. revert acc. induction lines as [|line lines IH]; intros acc.
  - reflexivity.
  - cbn [fold_left last_value]. rewrite IH.
    destruct (last_value k lines); [done|].
    destruct (match_line line) as [[key value]|]; [|done].
    rewrite set_prop_lookup by done.
    by destruct (String.eqb (Js.toLowerCase key) k).
Qed.

(** C8: decodeOne of the empty text is the empty record; for every text
    and every field name other than __proto__, the record holds under the
    name the value of the last line of the shape Key: Value whose key is the
    name when put in lower case, and nothing when there is no such line:
    keys are lower-cased, a later line replaces an earlier one, and lines of
    another shape are passed over. *)
Theorem parseResponse_last_value :
  parseResponse EmptyString = ∅
  /\ (forall text k,
        k <> "__proto__" ->
        parseResponse text !! k = last_value k (Js.split Js.LF text))
  /\ parseResponse sample_reply = {[ "volume" := "60"; "repeat" := "1" ]}.
Proof.
  split; [reflexivity|]. split; [|vm_compute; reflexivity].
  intros text k Hk. unfold parseResponse.
  rewrite parse_lines_lookup by done.
  by destruct (last_value k (Js.split Js.LF text)).
Qed.

(** The volume of a reply that gives it twice, once with a capital. *)
Lemma parseResponse_last_value_sample :
  parseResponse sample_reply !! "volume" = Some "60".
Proof.
  rewrite (proj1 (proj2 parseResponse_last_value)) by discriminate.
  reflexivity.
Defined.

(** ** Listings *)

Lemma has_keys_insert k v (m : gmap string string) :
  has_keys (<[k := v]> m) = true.
Proof.
  unfold has_keys. apply negb_true_iff, Nat.eqb_neq.
  intros H. apply map_size_empty_iff in H. by apply insert_non_empty in H.
Qed.

Lemma has_keys_false (m : gmap string string) : has_keys m = false -> m = ∅.
Proof.
  unfold has_keys. intros H. apply negb_false_iff, Nat.eqb_eq in H.
  by apply map_size_empty_iff.
Qed.

Lemma fold_insert_list_to_map (l : list (string * string)) :
  fold_left (fun (m : gmap string string) p => <[p.1 := p.2]> m) l ∅
  = list_to_map (reverse l).
Proof.
  induction l as [|x l IH] using rev_ind; [done|].
  by rewrite fold_left_app, reverse_snoc, IH.
Qed.

Lemma occurs_app c (a b : string) :
  occurs c (a ++ b) = occurs c a || occurs c b.
Proof.
  induction a as [|x a IH]; [done|].
  rewrite append_cons. cbn [occurs]. by rewrite IH, orb_assoc.
Qed.

Lemma is_value_no_LF v : is_value v = true -> occurs LFc v = false.
Proof.
  unfold is_value. intros H. apply andb_true_iff in H as [_ H].
  induction v as [|c v IH]; [done|]. cbn [all_chars occurs] in *.
  apply andb_true_iff in H as [H1 H2]. rewrite (IH H2), orb_false_r.
  destruct (Ascii.eqb_spec c LFc) as [->|]; [done|done].
Qed.

Lemma field_line_no_LF k v :
  is_key k = true -> is_value v = true ->
  occurs LFc (field_line (k, v)) = false.
Proof.
  unfold is_key, field_line. intros Hk Hv. simpl fst. simpl snd.
  apply andb_true_iff in Hk as [_ Hk]. apply negb_true_iff in Hk.
  rewrite !occurs_app, Hk, (is_value_no_LF v Hv). reflexivity.
Qed.

Lemma other_ok_spec f :
  other_ok f = true ->
  is_key (fst f) = true /\ is_value (snd f) = true
  /\ String.eqb (Js.toLowerCase (fst f)) "file" = false
  /\ Js.toLowerCase (fst f) <> "__proto__".
Proof.
  unfold other_ok. intros H.
  apply andb_true_iff in H as [H H4]. apply andb_true_iff in H as [H H3].
  apply andb_true_iff in H as [H1 H2].
  apply negb_true_iff in H3, H4. apply String.eqb_neq in H4. done.
Qed.

Lemma array_step_others others result (m : gmap string string) :
  forallb other_ok others = true ->
  fold_left array_step (map field_line others) (result, m)
  = (result,
     fold_left (fun (m : gmap string string) p => <[p.1 := p.2]> m)
       (map (fun f => (Js.toLowerCase (fst f), snd f)) others) m).
Proof.
  revert m. induction others as [|[k v] others IH]; intros m H; [done|].
  cbn [forallb] in H. apply andb_true_iff in H as [H1 H2].
  apply other_ok_spec in H1 as (Hk & Hv & Hf & Hp). simpl in Hk, Hv, Hf, Hp.
  cbn [map fold_left]. unfold array_step at 2.
  rewrite match_line_field by done. rewrite Hf. cbn [andb].
  rewrite set_prop_insert by done. by rewrite IH.
Qed.

Lemma array_step_block b result current :
  block_ok b = true ->
  fold_left array_step (block_lines b) (result, current)
  = (if has_keys current then result ++ [current] else result,
     block_record b).
Proof.
  unfold block_ok. intros H.
  apply andb_true_iff in H as [H H3]. apply andb_true_iff in H as [H1 _].
  unfold block_lines. cbn [fold_left]. unfold array_step at 2.
  rewrite match_line_field by done.
  change (Js.toLowerCase "file") with "file". rewrite String.eqb_refl.
  cbn [andb].
  assert (forall r : list (gmap string string),
    fold_left array_step (map field_line (blk_others b))
      (r, set_prop "file" (blk_file b) ∅) = (r, block_record b)) as E.
  { intros r. rewrite array_step_others by done.
    unfold block_record, block_fields.
    rewrite <- fold_insert_list_to_map. reflexivity. }
  destruct (has_keys current) eqn:Hc; [apply E|].
  apply has_keys_false in Hc as ->. apply E.
Qed.

Lemma has_keys_fold (l : list (string * string)) (m : gmap string string) :
  has_keys m = true ->
  has_keys (fold_left (fun (m : gmap string string) p => <[p.1 := p.2]> m) l m)
  = true.
Proof.
  revert m. induction l as [|p l IH]; intros m Hm; [done|].
  cbn [fold_left]. apply IH, has_keys_insert.
Qed.

Lemma has_keys_block_record b : has_keys (block_record b) = true.
Proof.
  unfold block_record, block_fields. rewrite <- fold_insert_list_to_map.
  cbn [fold_left]. apply has_keys_fold, has_keys_insert.
Qed.

Lemma array_loop_blocks blocks result current :
  forallb block_ok blocks = true ->
  (let '(r, c) := fold_left array_step (concat (map block_lines blocks))
                    (result, current) in
   if has_keys c then r ++ [c] else r)
  = (if has_keys current then result ++ [current] else result)
    ++ map block_record blocks.
Proof.
  revert result current.
  induction blocks as [|b blocks IH]; intros result current H.
  - simpl. by rewrite app_nil_r.
  - cbn [forallb] in H. apply andb_true_iff in H as [H1 H2].
    cbn [map concat]. rewrite fold_left_app, array_step_block by done.
    rewrite IH by done. rewrite has_keys_block_record.
    cbn [map]. by rewrite <- app_assoc.
Qed.

Lemma block_lines_no_LF b :
  block_ok b = true ->
  Forall (fun x => occurs LFc x = false) (block_lines b).
Proof.
  unfold block_ok. intros H.
  apply andb_true_iff in H as [H H3]. apply andb_true_iff in H as [H1 _].
  apply Forall_cons. split; [by apply field_line_no_LF|].
  apply Forall_map, Forall_forall. intros [k v] Hin.
  rewrite forallb_forall in H3.
  apply list_elem_of_In, H3, other_ok_spec in Hin as (? & ? & _).
  by apply field_line_no_LF.
Qed.

(** C3: decodeMany of a text made of N blocks, each the line of a file
    field followed by the lines of one or more other fields, is the list of
    the N records of the blocks, each with exactly the fields of its block
    under their lower-cased names; decodeMany of the empty text is the empty
    list. One turn of the loop starts a new record, holding the file field
    alone, exactly when the key of the line is file in lower case and the
    current record has a field; the current record is appended at the end
    when it has a field. *)
Theorem parseArrayResponse_blocks :
  (forall blocks,
     forallb block_ok blocks = true ->
     parseArrayResponse (listing_text blocks) = map block_record blocks)
  /\ parseArrayResponse EmptyString = []
  /\ (forall result current line,
        array_step (result, current) line
        = match match_line line with
          | Some (key, value) =>
              if String.eqb (Js.toLowerCase key) "file" && has_keys current
              then (result ++ [current], {[ "file" := value ]})
              else (result, set_prop (Js.toLowerCase key) value current)
          | None => (result, current)
          end)
  /\ (forall text,
        parseArrayResponse text
        = let '(result, current) := array_loop (Js.split Js.LF text) in
          if has_keys current then result ++ [current] else result).
Proof.
  split; [|split; [reflexivity|split; [|reflexivity]]].
  - intros blocks H. unfold parseArrayResponse, listing_text.
    destruct blocks as [|b blocks]; [reflexivity|].
    assert (Forall (fun x => occurs LFc x = false)
              (concat (map block_lines (b :: blocks)))) as Hlf.
    { apply Forall_concat, Forall_map, Forall_forall. intros x Hx.
      apply block_lines_no_LF. rewrite forallb_forall in H.
      by apply H, list_elem_of_In. }
    change (concat (map block_lines (b :: blocks)))
      with (field_line ("file", blk_file b)
            :: (map field_line (blk_others b)
                ++ concat (map block_lines blocks))) in Hlf |- * at 1.
    rewrite split_concat_lines by done.
    change (field_line ("file", blk_file b)
            :: (map field_line (blk_others b)
                ++ concat (map block_lines blocks)))
      with (concat (map block_lines (b :: blocks))).
    exact (array_loop_blocks (b :: blocks) [] ∅ H).
  - intros result current line. unfold array_step.
    destruct (match_line line) as [[key value]|]; [|reflexivity].
    destruct (String.eqb_spec (Js.toLowerCase key) "file") as [->|];
      [|reflexivity].
    destruct (has_keys current); reflexivity.
Qed.

(** The listing of two songs. *)
Lemma parseArrayResponse_blocks_two_songs :
  parseArrayResponse (listing_text two_songs) = map block_record two_songs.
Proof.
  apply (proj1 parseArrayResponse_blocks two_songs). reflexivity.
Defined.

(** ** The entity mapper *)

(** The status of the tests of the client. *)
Example status_of_the_tests :
  fst (status mock_world connected_session)
  = Returned
      {| st_volume := Js.Finite 50; st_repeat := true; st_random := false;
         st_single := false; st_consume := false;
         st_playlist := Js.Finite 1; st_playlistlength := Js.Finite 2;
         st_mixrampdb := Js.Finite 0; st_state := Some "play";
         st_song := Some (Js.Finite 0); st_songid := Some (Js.Finite 1);
         st_time := Some "30:180"; st_elapsed := Some (Js.Finite 30);
         st_bitrate := Some (Js.Finite 320);
         st_duration := Some (Js.Finite 180);
         st_audio := Some "44100:16:2";
         st_nextsong := None; st_nextsongid := None |}.
Proof. vm_compute. reflexivity. Qed.

(** C6 as stated fails: the status built from a record with no volume has
    the volume NaN, not an absent one; so has every count of the stats. *)
Lemma status_of_missing_volume_is_NaN :
  (∅ : gmap string string) !! "volume" = None
  /\ st_volume (status_of ∅) = Js.NaN
  /\ stats_songs (stats_of ∅) = Js.NaN.
Proof. repeat split. Qed.

(** C6, as the code has it: a numeric field of the record that is missing
    gives an absent destination field for the optional fields (all three of
    the song; song, songid, elapsed, bitrate, duration, nextsong and
    nextsongid of the status), and NaN for the fields the entity types
    declare as required (volume, playlist, playlistlength and mixrampdb of
    the status, and every field of the stats). *)
Theorem missing_numeric_fields (parsed : gmap string string) :
  (forall f, parsed !! status_source f = None ->
     status_field f (status_of parsed)
     = if status_required f then Some Js.NaN else None)
  /\ (forall f, parsed !! stats_source f = None ->
        stats_field f (stats_of parsed) = Js.NaN)
  /\ (forall f, parsed !! song_source f = None ->
        song_field f (convertToMpdSong parsed) = None).
Proof.
  repeat split; intros [] H; simpl in *; rewrite H; reflexivity.
Qed.

(** The record with no field at all. *)
Lemma missing_numeric_fields_empty :
  status_field SVolume (status_of ∅) = Some Js.NaN
  /\ status_field SSong (status_of ∅) = None
  /\ stats_field TUptime (stats_of ∅) = Js.NaN
  /\ song_field GPos (convertToMpdSong ∅) = None.
Proof.
  pose proof (missing_numeric_fields ∅) as (H1 & H2 & H3).
  exact (conj (H1 SVolume eq_refl)
           (conj (H1 SSong eq_refl)
              (conj (H2 TUptime eq_refl) (H3 GPos eq_refl)))).
Defined.

(** ** The session *)

(** C10: when the close of the client raises during disconnect on a
    connected session, disconnect returns without raising, the error is on
    the console, the session still says it is connected, and a connect after
    it changes nothing and calls nothing. A connected session is
    disconnected after disconnect exactly when the close did not raise. *)
Theorem disconnect_close_raises w s :
  connected s = true ->
  (forall e, close_raises w s e ->
     let s' := snd (disconnect w s) in
     fst (disconnect w s) = Returned tt
     /\ console s' = console s ++ [("Error disconnecting from MPD:", Some e)]
     /\ connected s' = true
     /\ connect w s' = (Returned tt, s'))
  /\ (connected (snd (disconnect w s)) = false
      <-> ~ exists e, close_raises w s e).
Proof.
  intros Hc. unfold disconnect. rewrite Hc. simpl negb. cbv iota.
  unfold try_catch, bind, client_close, console_error, ret, connect.
  split.
  - intros e (c & Hcl & Hf & Hclose). rewrite Hcl, Hf. simpl.
    rewrite Hclose. simpl. rewrite Hc. done.
  - destruct (client s) as [c|] eqn:Hcl; simpl.
    + destruct (close_is_function c) eqn:Hf; simpl.
      * destruct (mpd_close w (wire s)) as [[]|e] eqn:Hclose; simpl.
        -- split; [|done]. intros _ (e & c' & ? & ? & ?). congruence.
        -- rewrite Hc. split; [done|]. intros H. destruct H. exists e, c. done.
      * split; [|done]. intros _ (e & c' & ? & ? & ?). congruence.
    + split; [|done]. intros _ (e & c' & ? & ? & ?). congruence.
Qed.

(** A connected session whose transport is lost at the close. *)
Lemma disconnect_close_raises_lost :
  fst (disconnect lost_world connected_session) = Returned tt
  /\ console (snd (disconnect lost_world connected_session))
     = console connected_session
       ++ [("Error disconnecting from MPD:", Some ConnectionLost)]
  /\ connected (snd (disconnect lost_world connected_session)) = true
  /\ connect lost_world (snd (disconnect lost_world connected_session))
     = (Returned tt, snd (disconnect lost_world connected_session)).
Proof.
  apply (proj1 (disconnect_close_raises lost_world connected_session eq_refl)
           ConnectionLost).
  exists (mkClient true). repeat split; reflexivity.
Defined.

(** ** Volume *)

Lemma setVolume_wire w v s :
  wire (snd (setVolume w v s))
  = wire s ++
    (if connected s && negb (is_undefined (client s))
     then [EvSend (mkRequest "setvol"
             (Some [Js.toString
                      (Js.Math_max (Js.IInt 0)
                         (Js.Math_min (Js.IInt 100) (Js.Math_floor v)))]))]
     else []).
Proof.
  unfold setVolume, cmd. unfold bind, try_catch, ret, throw, client_sendCommand.
  destruct (connected s), (client s); simpl; try by rewrite app_nil_r.
  by destruct (mpd_sendCommand w _ _).
Qed.

(** NaN is no number to clamp: it goes to the daemon as it is. The server
    refuses it before it calls setVolume. *)
Example setVolume_NaN :
  wire (snd (setVolume silent_world Js.NaN connected_session))
  = [EvSend (mkRequest "setvol" (Some ["NaN"]))].
Proof. reflexivity. Qed.

(** C7 as stated fails: NaN is a numeric input, and what setVolume sends
    for it is the text NaN, which is the text of no whole number from 0 to
    100. *)
Lemma setVolume_sends_NaN :
  wire (snd (setVolume silent_world Js.NaN connected_session))
  = [EvSend (mkRequest "setvol" (Some ["NaN"]))]
  /\ forallb (fun n => negb (String.eqb (Js.toString (Js.IInt (Z.of_nat n)))
                                        "NaN"))
             (seq 0 101) = true.
Proof. split; vm_compute; reflexivity. Qed.

(** C7, as the code has it: for every number v other than NaN, setVolume
    puts on the wire (when the session is connected) the one command setvol
    with the decimal text of floor(v) clamped to the range from 0 to 100;
    minus 10 gives 0, 110 gives 100, 50.9 gives 50; the infinities give 0
    and 100. For NaN the argument of setvol is the text NaN. *)
Theorem setVolume_clamps w s :
  (forall q : Q,
     let n := Z.max 0 (Z.min 100 (Qfloor q)) in
     (0 <= n <= 100)%Z
     /\ wire (snd (setVolume w (Js.Finite q) s))
        = wire s ++
          (if connected s && negb (is_undefined (client s))
           then [EvSend (mkRequest "setvol" (Some [Js.toString (Js.IInt n)]))]
           else []))
  /\ wire (snd (setVolume w Js.PosInfinity s))
     = wire s ++
       (if connected s && negb (is_undefined (client s))
        then [EvSend (mkRequest "setvol" (Some ["100"]))] else [])
  /\ wire (snd (setVolume w Js.NegInfinity s))
     = wire s ++
       (if connected s && negb (is_undefined (client s))
        then [EvSend (mkRequest "setvol" (Some ["0"]))] else [])
  /\ wire (snd (setVolume silent_world (Js.Finite (-10)) connected_session))
     = [EvSend (mkRequest "setvol" (Some ["0"]))]
  /\ wire (snd (setVolume silent_world (Js.Finite 110) connected_session))
     = [EvSend (mkRequest "setvol" (Some ["100"]))]
  /\ wire (snd (setVolume silent_world (Js.Finite (509 # 10)) connected_session))
     = [EvSend (mkRequest "setvol" (Some ["50"]))]
  /\ wire (snd (setVolume w Js.NaN s))
     = wire s ++
       (if connected s && negb (is_undefined (client s))
        then [EvSend (mkRequest "setvol" (Some ["NaN"]))] else []).
Proof.
  repeat split; try (vm_compute; reflexivity); try apply setVolume_wire; lia.
Qed.

(** ** Normalisation of the query *)

Lemma has_shape_decorated q l r t : decorated q l r t -> has_shape q = true.
Proof.
  unfold decorated. intros ->. induction l as [|c l IH].
  - change (has_shape (String " " (String "-" (String " " (r ++ " (" ++ t)))) = true).
    cbn [has_shape]. by rewrite includes_app.
  - rewrite append_cons. cbn [has_shape]. rewrite IH. apply orb_true_r.
Qed.

(** C4 as stated fails: a query that is not of the shape, with the
    parenthesis before the hyphen, is changed all the same. *)
Lemma processSearchQuery_changes_other_shape :
  processSearchQuery "Song (Live) - Artist" = "Artist"
  /\ ~ exists left right tail, decorated "Song (Live) - Artist" left right tail.
Proof.
  split; [reflexivity|]. intros (l & r & t & H).
  apply has_shape_decorated in H. discriminate H.
Qed.

Ltac prefix_cases :=
  rewrite ?prefix_nil in *;
  repeat match goal with
         | |- context [ascii_dec ?a ?b] => destruct (ascii_dec a b); try subst
         | H : context [ascii_dec ?a ?b] |- _ => destruct (ascii_dec a b); try subst
         end; try discriminate; try reflexivity; try assumption.

Lemma no_start_dash a b :
  Js.includes " - " (a ++ " ") = false ->
  no_start " - " a (String " " b) = true.
Proof.
  induction a as [|c a IH]; [done|]. rewrite append_cons.
  intros H. apply includes_false_tail in H as [H1 H2].
  cbn [no_start]. rewrite (IH H2), andb_true_r. apply negb_true_iff.
  rewrite append_cons. clear IH H2.
  destruct a as [|d [|e a]];
    rewrite ?append_cons, ?append_nil_l in *; cbn [String.prefix] in *;
    prefix_cases.
Qed.

Lemma no_start_paren a b :
  Js.includes " (" a = false ->
  no_start " (" a (String " " b) = true.
Proof.
  induction a as [|c a IH]; [done|].
  intros H. apply includes_false_tail in H as [H1 H2].
  cbn [no_start]. rewrite (IH H2), andb_true_r. apply negb_true_iff.
  rewrite append_cons. clear IH H2.
  destruct a as [|d a];
    rewrite ?append_cons, ?append_nil_l in *; cbn [String.prefix] in *;
    prefix_cases.
Qed.

(** The piece of a decorated query after the first hyphen: RIGHT, the
    parenthesis, and what of TAIL comes before a further hyphen. *)
Lemma split_dash_right r t :
  Js.includes " - " (r ++ " ") = false ->
  exists x, fst (Js.split_scan " - " 0 (r ++ " (" ++ t)) = (r ++ " (" ++ x)%string.
Proof.
  intros H. exists (fst (Js.split_scan " - " 0 t)).
  rewrite split_scan_clear by (by apply no_start_dash).
  cbn [fst]. f_equal.
  change (" (" ++ t)%string with (String " " (String "(" t)).
  cbn [Js.split_scan String.prefix]. prefix_cases.
  all: destruct (Js.split_scan " - " 0 t); reflexivity.
Qed.

(** C4, as the code has it: a query LEFT - RIGHT (TAIL, where the hyphen
    between spaces after LEFT is the first of the query, RIGHT is not empty
    and neither a hyphen between spaces nor a space and a parenthesis start
    inside RIGHT, gives RIGHT trimmed; a query without a hyphen between
    spaces or without an opening parenthesis is left as it is. *)
Theorem processSearchQuery_decorated :
  (forall left right tail,
     Js.includes " - " (left ++ " ") = false ->
     Js.isEmpty right = false ->
     Js.includes " - " (right ++ " ") = false ->
     Js.includes " (" right = false ->
     processSearchQuery (left ++ " - " ++ right ++ " (" ++ tail)
     = Js.trim right)
  /\ (forall query,
        Js.includes " - " query = false \/ Js.includes "(" query = false ->
        processSearchQuery query = query).
Proof.
  split.
  - intros l r t Hl Hr Hd Hp. unfold processSearchQuery.
    rewrite includes_app.
    replace (l ++ " - " ++ r ++ " (" ++ t)%string
      with ((l ++ " - " ++ r ++ " ") ++ "(" ++ t)%string at 1
      by (by rewrite !append_assoc).
    rewrite includes_app. cbn [andb].
    change (" - " ++ r ++ " (" ++ t)%string
      with (String " " ("- " ++ r ++ " (" ++ t))%string in *.
    change (String " " ("- " ++ r ++ " (" ++ t))%string
      with (" - " ++ (r ++ " (" ++ t))%string.
    rewrite split_clear_hit by (by apply no_start_dash).
    unfold item, Js.split at 1. cbn [nth_error].
    destruct (split_dash_right r t Hd) as [x Hx].
    destruct (Js.split_scan " - " 0 (r ++ " (" ++ t)) as [part rest].
    cbn [fst] in Hx. subst part.
    rewrite split_clear_hit by (by apply no_start_paren).
    cbn [nth_error]. by destruct r.
  - intros query H. unfold processSearchQuery.
    destruct H as [-> | ->]; [done|]. by rewrite andb_false_r.
Qed.

(** A result line as the server prints it: artist, title, album. *)
Lemma processSearchQuery_decorated_deftones :
  processSearchQuery "Deftones - Be Quiet and Drive (Far Away)"
  = "Be Quiet and Drive".
Proof.
  exact (proj1 processSearchQuery_decorated
           "Deftones" "Be Quiet and Drive" "Far Away)"
           eq_refl eq_refl eq_refl eq_refl).
Defined.

(** ** The monad *)

Lemma search_depth_unfold w depth type query :
  search_depth w depth type query =
  (console_error ("Searching for " ++ type ++ ": " ++ Js.quoted query) None ;>
   console_error
     ("Processed query: " ++ Js.quoted (processSearchQuery query)) None ;>
   try_catch (search_try w type query) (search_catch w depth type query)).
Proof. destruct depth; reflexivity. Qed.

(** ** Sessions up to the console *)

Lemma same_refl s : same_but_console s s.
Proof. by repeat split. Qed.

Lemma same_sym s t : same_but_console s t -> same_but_console t s.
Proof. intros (?&?&?&?&?). by repeat split. Qed.

Lemma same_trans s t u :
  same_but_console s t -> same_but_console t u -> same_but_console s u.
Proof. intros (?&?&?&?&?) (?&?&?&?&?). repeat split; congruence. Qed.

Lemma same_add_log l s : same_but_console (add_log l s) s.
Proof. by repeat split. Qed.

Lemma same_add_event e s t :
  same_but_console s t -> same_but_console (add_event e s) (add_event e t).
Proof. intros (?&?&?&?&?). repeat split; simpl; congruence. Qed.

Lemma client_sendCommand_same w r s t :
  same_but_console s t ->
  fst (client_sendCommand w r s) = fst (client_sendCommand w r t)
  /\ same_but_console (snd (client_sendCommand w r s))
                      (snd (client_sendCommand w r t)).
Proof.
  intros H. pose proof H as (?&?&?&Hc&Hw). unfold client_sendCommand.
  rewrite Hc, Hw. destruct (client t); simpl; auto using same_add_event.
Qed.

Lemma cmd_same w c args s t :
  same_but_console s t ->
  fst (cmd w c args s) = fst (cmd w c args t)
  /\ same_but_console (snd (cmd w c args s)) (snd (cmd w c args t)).
Proof.
  intros H. pose proof H as (?&?&Hn&Hc&Hw). unfold cmd.
  rewrite Hn, Hc. destruct (negb (connected t) || _); [by auto|].
  unfold try_catch, bind, ret, throw.
  pose proof (client_sendCommand_same w (mkRequest c (Some args)) s t H) as [E1 E2].
  destruct (client_sendCommand w _ s) as [[a|e] s'], (client_sendCommand w _ t) as [[b|e'] t'];
    simpl in *; try discriminate; auto.
Qed.

(** ** Method bodies up to the console *)

Section Sim.
Context {A B : Type}.

Lemma sim_ret (a : A) : sim (ret a) (ret a).
Proof. intros s t H. by split. Qed.

Lemma sim_throw (e : Failure) : sim (@throw A e) (throw e).
Proof. intros s t H. by split. Qed.

Lemma sim_bind (m m' : M A) (k k' : A -> M B) :
  sim m m' -> (forall a, sim (k a) (k' a)) -> sim (bind m k) (bind m' k').
Proof.
  intros Hm Hk s t H. unfold bind. destruct (Hm s t H) as [E1 E2].
  destruct (m s) as [[a|e] s'], (m' t) as [[a'|e'] t'];
    simpl in *; try discriminate.
  - injection E1 as ->. by apply Hk.
  - injection E1 as ->. by split.
Qed.

Lemma sim_try_catch (m m' : M A) (h h' : Failure -> M A) :
  sim m m' -> (forall e, sim (h e) (h' e)) ->
  sim (try_catch m h) (try_catch m' h').
Proof.
  intros Hm Hh s t H. unfold try_catch. destruct (Hm s t H) as [E1 E2].
  destruct (m s) as [[a|e] s'], (m' t) as [[a'|e'] t'];
    simpl in *; try discriminate.
  - injection E1 as ->. by split.
  - injection E1 as ->. by apply Hh.
Qed.

Lemma sim_log_left text err (m m' : M A) :
  sim m m' -> sim (console_error text err ;> m) m'.
Proof.
  intros Hm s t H. unfold bind, console_error.
  apply Hm. eapply same_trans; [apply same_add_log|done].
Qed.

Lemma sim_ext_right (m m1 m2 : M A) :
  (forall t, m1 t = m2 t) -> sim m m1 -> sim m m2.
Proof. intros E Hm s t H. rewrite <- E. by apply Hm. Qed.

Lemma sim_ext_left (m1 m2 m : M A) :
  (forall t, m1 t = m2 t) -> sim m1 m -> sim m2 m.
Proof. intros E Hm s t H. rewrite <- E. by apply Hm. Qed.

Lemma bind_bind_ret (m : M A) (f : A -> B) {C} (k : B -> M C) s :
  bind m (fun r => k (f r)) s = bind (bind m (fun r => ret (f r))) k s.
Proof. unfold bind, ret. by destruct (m s) as [[a|e] s']. Qed.

End Sim.

Lemma sim_client_sendCommand w r :
  sim (client_sendCommand w r) (client_sendCommand w r).
Proof. intros s t H. by apply client_sendCommand_same. Qed.

Lemma sim_cmd w c args : sim (cmd w c args) (cmd w c args).
Proof. intros s t H. by apply cmd_same. Qed.

Lemma length_is_0 {A} (l : list A) :
  negb (Nat.eqb (length l) 0) = match l with [] => false | _ => true end.
Proof. by destruct l. Qed.

Lemma bind_assoc {A B C} (m : M A) (f : A -> M B) (g : B -> M C) s :
  bind m (fun x => bind (f x) g) s = bind (bind m f) g s.
Proof. unfold bind. by destruct (m s) as [[a|e] s']. Qed.

Lemma sim_search_try w type query :
  sim (search_try w type query) (run_cascade w (cascade_plan type query)).
Proof.
  unfold search_try, cascade_plan.
  rewrite occurs_includes, split_char_item0. simpl default.
  set (eff := processSearchQuery query).
  apply sim_log_left. simpl run_cascade. unfold run_attempt at 1. simpl.
  eapply sim_ext_right; [intros; apply bind_bind_ret|].
  apply sim_bind; [apply sim_client_sendCommand|]. intros response. cbv beta.
  rewrite length_is_0.
  destruct (map convertToMpdSong (parseArrayResponse response)) eqn:E;
    [|apply sim_ret].
  assert (sim
    (console_error "Trying array approach" None ;>
     (let* arrayResponse := cmd w "search" [type; eff] in
      ret (map convertToMpdSong (parseArrayResponse arrayResponse))))
    (let* songs := run_attempt w (mkAttempt TokenArray type eff) in
     match songs with [] => ret [] | _ :: _ => ret songs end)) as Harray.
  { apply sim_log_left. unfold run_attempt. simpl.
    eapply sim_ext_right; [intros; apply bind_bind_ret|].
    apply sim_bind; [apply sim_cmd|]. intros reply. cbv beta.
    destruct (map convertToMpdSong (parseArrayResponse reply)); apply sim_ret. }
  destruct (String.eqb type "title" && negb (String.eqb eff query) && occurs "(" query).
  - simpl. unfold run_attempt at 1. simpl.
    eapply sim_ext_left; [intros; apply bind_assoc|].
    apply sim_log_left.
    eapply sim_ext_left; [intros; apply bind_assoc|].
    eapply sim_ext_right; [intros; apply bind_bind_ret|].
    apply sim_bind; [apply sim_client_sendCommand|]. intros reply. cbv beta.
    rewrite length_is_0.
    destruct (map convertToMpdSong (parseArrayResponse reply)); [apply Harray|apply sim_ret].
  - apply Harray.
Qed.

Lemma sim_search_any w depth query :
  sim (search_depth w depth "any" query) (resolve w "any" query).
Proof.
  rewrite search_depth_unfold. do 2 apply sim_log_left.
  unfold resolve. apply sim_try_catch; [apply sim_search_try|].
  intros e. unfold search_catch. simpl.
  do 2 apply sim_log_left. apply sim_ret.
Qed.

Lemma resolve_returns w type query t :
  exists r, fst (resolve w type query t) = Returned r.
Proof.
  unfold resolve, try_catch.
  destruct (run_cascade w (cascade_plan type query) t) as [[r|e] t1]; [by eexists|].
  destruct (String.eqb type "any"); [by eexists|].
  destruct (run_cascade w (cascade_plan "any" query) t1) as [[r|e'] t2]; by eexists.
Qed.

Lemma sim_try_total {A} (m m' : M A) (h : Failure -> M A) :
  sim m m' -> (forall t, exists r, fst (m' t) = Returned r) ->
  sim (try_catch m h) m'.
Proof.
  intros Hm Htot s t H. unfold try_catch.
  destruct (Hm s t H) as [E1 E2]. destruct (Htot t) as [r Hr].
  rewrite Hr in E1. destruct (m s) as [[a|e] s']; simpl in *; [|discriminate].
  rewrite Hr. by split.
Qed.

Lemma sim_search w depth type query :
  sim (search_depth w (S depth) type query) (resolve w type query).
Proof.
  destruct (String.eqb type "any") eqn:Hany.
  { apply String.eqb_eq in Hany as ->. apply sim_search_any. }
  rewrite search_depth_unfold. do 2 apply sim_log_left.
  unfold resolve. apply sim_try_catch; [apply sim_search_try|].
  intros e. unfold search_catch. rewrite Hany. simpl negb. cbv iota.
  apply sim_log_left.
  eapply sim_ext_left.
  { intros t. instantiate (1 := try_catch (console_error "Trying 'any' field search as last resort" None ;> search_depth w depth "any" query)
       (fun anyError => console_error "Even 'any' field search failed:" (Some anyError) ;> console_error "All search attempts failed, returning empty results" None ;> ret [])).
    unfold try_catch, bind, console_error, ret.
    by destruct (search_depth w depth "any" query _) as [[r|e'] s']. }
  apply sim_try_total.
  - apply sim_log_left.
    eapply sim_ext_right; [|apply sim_search_any].
    intros t. reflexivity.
  - intros t. apply (resolve_returns w "any" query t).
Qed.

(** ** The search resolver *)

(** The nesting bound of [search] is never reached. *)
Lemma search_depth_any w depth query s :
  search_depth w depth "any" query s = search_depth w 0 "any" query s.
Proof. rewrite !search_depth_unfold. reflexivity. Qed.

Lemma search_depth_enough w depth type query s :
  search_depth w (S depth) type query s = search w type query s.
Proof.
  unfold search. rewrite !search_depth_unfold.
  unfold bind, console_error, try_catch.
  destruct (search_try w type query _) as [[r|e] s1]; [reflexivity|].
  unfold search_catch, bind, console_error, try_catch.
  destruct (negb (String.eqb type "any")); [|reflexivity].
  by rewrite search_depth_any.
Qed.

(** Commands are only ever added to the wire. *)
Lemma client_sendCommand_wire w r s :
  wire (snd (client_sendCommand w r s)) = wire s
  \/ wire (snd (client_sendCommand w r s)) = wire s ++ [EvSend r].
Proof. unfold client_sendCommand. destruct (client s); simpl; auto. Qed.

Lemma cmd_wire w c args s :
  wire (snd (cmd w c args s)) = wire s
  \/ wire (snd (cmd w c args s))
     = wire s ++ [EvSend (mkRequest c (Some args))].
Proof.
  unfold cmd. destruct (negb (connected s) || _); [by left|].
  unfold try_catch, bind, ret, throw.
  pose proof (client_sendCommand_wire w (mkRequest c (Some args)) s) as H.
  by destruct (client_sendCommand w _ s) as [[a|e] s'].
Qed.

(** An attempt puts its request on the wire, or nothing when it fails
    before the call of the library. *)
Lemma run_attempt_wire w a s :
  wire (snd (run_attempt w a s)) = wire s
  \/ wire (snd (run_attempt w a s)) = wire s ++ [EvSend (attempt_request a)].
Proof.
  unfold run_attempt, bind, ret, attempt_request.
  destruct (at_encoding a).
  - pose proof (client_sendCommand_wire w
      (mkRequest (search_command (at_type a) (at_query a)) None) s) as H.
    by destruct (client_sendCommand w _ s) as [[r|e] s'].
  - pose proof (cmd_wire w "search" [at_type a; at_query a] s) as H.
    by destruct (cmd w _ _ s) as [[r|e] s'].
Qed.

Lemma run_attempt_sent w a s r s' :
  run_attempt w a s = (Returned r, s') ->
  wire s' = wire s ++ [EvSend (attempt_request a)].
Proof.
  unfold run_attempt, bind, ret, attempt_request.
  destruct (at_encoding a).
  - unfold client_sendCommand. destruct (client s); [|discriminate].
    destruct (mpd_sendCommand w _ _); [|discriminate]. by intros [= <- <-].
  - unfold cmd. destruct (negb (connected s) || _); [discriminate|].
    unfold try_catch, bind, ret, throw, client_sendCommand.
    destruct (client s); [|discriminate].
    destruct (mpd_sendCommand w _ _); [|discriminate]. by intros [= <- <-].
Qed.

(** A pass puts on the wire the requests of the first attempts of its plan,
    in the order of the plan. *)
Lemma run_cascade_wire w plan s :
  exists k, wire (snd (run_cascade w plan s))
            = wire s ++ map (fun a => EvSend (attempt_request a)) (take k plan).
Proof.
  revert s. induction plan as [|a plan IH]; intros s.
  - exists 0. simpl. by rewrite app_nil_r.
  - simpl. unfold bind.
    destruct (run_attempt w a s) as [[r|e] s1] eqn:E.
    + apply run_attempt_sent in E as E1. destruct r as [|x r].
      * destruct (IH s1) as [k Hk]. exists (S k). rewrite Hk, E1. simpl.
        by rewrite <- app_assoc.
      * exists 1. simpl. by rewrite E1.
    + pose proof (run_attempt_wire w a s) as H. rewrite E in H.
      destruct H as [H|H]; [exists 0|exists 1]; simpl in *; rewrite H;
        by rewrite ?app_nil_r.
Qed.


(** A title search for a decorated query on a daemon that finds nothing:
    the title part quoted, the text before the parenthesis quoted, the title
    part as a token array. *)
Example search_decorated_title_wire :
  wire (snd (search silent_world "title"
               "Deftones - Be Quiet and Drive (Far Away)" connected_session))
  = [EvSend (mkRequest (search_command "title" "Be Quiet and Drive") None);
     EvSend (mkRequest
               (search_command "title" "Deftones - Be Quiet and Drive") None);
     EvSend (mkRequest "search" (Some ["title"; "Be Quiet and Drive"]))].
Proof. vm_compute. reflexivity. Qed.

(** A daemon that rejects every command: the pass with the type any
    follows the failure of the primary attempt, and the result is the empty
    list. *)
Example search_rejected_wire :
  fst (search rejecting_world "artist" "x" connected_session) = Returned []
  /\ wire (snd (search rejecting_world "artist" "x" connected_session))
     = [EvSend (mkRequest (search_command "artist" "x") None);
        EvSend (mkRequest (search_command "any" "x") None)].
Proof. split; vm_compute; reflexivity. Qed.

(** The search of the tests of the client: the quoted command finds
    nothing, the token array finds the song. *)
Example search_of_the_tests :
  fst (search mock_world "artist" "Test Artist 1" connected_session)
  = Returned
      [{| song_file := Some "test1.mp3";
          song_artist := Some "Test Artist 1";
          song_album := Some "Test Album 1";
          song_title := Some "Test Song 1";
          song_track := None; song_duration := None; song_pos := None;
          song_id := None; song_time := None |}].
Proof. vm_compute. reflexivity. Qed.

(** C1, as the code has it: search catches every failure of the cascade,
    a connectivity failure included, and never raises to its caller. When
    the first pass fails and the type is any the result is the empty list;
    with another type the result is that of the pass with the type any, or
    the empty list when that pass fails too. *)
Theorem search_catches_every_failure w type query s :
  (exists songs, fst (search w type query s) = Returned songs)
  /\ match run_cascade w (cascade_plan type query) s with
     | (Returned songs, _) => fst (search w type query s) = Returned songs
     | (Thrown _, s1) =>
         fst (search w type query s) =
           if String.eqb type "any" then Returned []
           else match run_cascade w (cascade_plan "any" query) s1 with
                | (Returned songs, _) => Returned songs
                | (Thrown _, _) => Returned []
                end
     end.
Proof.
  destruct (sim_search w 0 type query s s (same_refl s)) as [E1 _].
  fold (search w type query) in E1. rewrite E1. split.
  - apply resolve_returns.
  - unfold resolve, try_catch.
    destruct (run_cascade w (cascade_plan type query) s) as [[r|e] s1]; [done|].
    destruct (String.eqb type "any"); [done|].
    by destruct (run_cascade w (cascade_plan "any" query) s1) as [[r|e'] s2].
Qed.

(** C1 as stated fails: on a session whose transport is lost the primary
    attempt raises a connectivity failure, and search returns the empty
    list. *)
Lemma search_swallows_connection_loss :
  fst (client_sendCommand lost_world
         (mkRequest (search_command "title" "x") None) connected_session)
    = Thrown ConnectionLost
  /\ is_connectivity ConnectionLost = true
  /\ fst (search lost_world "title" "x" connected_session) = Returned [].
Proof. repeat split; vm_compute; reflexivity. Qed.

Section Quiet.

Variable w : World.
Hypothesis quiet : forall history r, exists reply,
  mpd_sendCommand w history r = Returned reply
  /\ parseArrayResponse reply = [].

Lemma run_attempt_quiet a s :
  connected s = true -> is_Some (client s) ->
  run_attempt w a s
  = (Returned [], add_event (EvSend (attempt_request a)) s).
Proof.
  intros Hc [c Hcl].
  unfold run_attempt, attempt_request, cmd.
  unfold bind, ret, try_catch, throw, client_sendCommand.
  destruct (at_encoding a); rewrite ?Hc, Hcl; simpl.
  - destruct (quiet (wire s) (mkRequest (search_command (at_type a) (at_query a)) None))
      as (reply & -> & ->). reflexivity.
  - destruct (quiet (wire s) (mkRequest "search" (Some [at_type a; at_query a])))
      as (reply & -> & ->). reflexivity.
Qed.

Lemma run_cascade_quiet plan s :
  connected s = true -> is_Some (client s) ->
  fst (run_cascade w plan s) = Returned []
  /\ wire (snd (run_cascade w plan s))
     = wire s ++ map (fun a => EvSend (attempt_request a)) plan.
Proof.
  revert s. induction plan as [|a plan IH]; intros s Hc Hcl; simpl.
  - by rewrite app_nil_r.
  - unfold bind. rewrite run_attempt_quiet by done.
    destruct (IH (add_event (EvSend (attempt_request a)) s)) as [E1 E2];
      [done..|].
    rewrite E1, E2. simpl. by rewrite <- app_assoc.
Qed.

End Quiet.

(** On a session that is not connected the quoted attempts still reach the
    library, the token array fails in cmd with NotConnected, and search
    returns the empty list after the pass with the type any. *)
Example search_not_connected :
  fst (cmd silent_world "search" ["artist"; "x"] closed_session)
  = Thrown NotConnected
  /\ fst (search silent_world "artist" "x" closed_session) = Returned []
  /\ wire (snd (search silent_world "artist" "x" closed_session))
     = [EvSend (mkRequest (search_command "artist" "x") None);
        EvSend (mkRequest (search_command "any" "x") None)].
Proof. repeat split; vm_compute; reflexivity. Qed.

(** C5, as the code has it: when every reply decodes to no record, the
    commands of the scenario are the primary attempt and the token-array
    retry, both with the raw query (the normalisation leaves it as it is),
    and the result is the empty list: no search with the type any follows. *)
Theorem be_quiet_commands w s :
  connected s = true ->
  is_Some (client s) ->
  (forall history r, exists reply,
     mpd_sendCommand w history r = Returned reply
     /\ parseArrayResponse reply = []) ->
  fst (search w "title" be_quiet s) = Returned []
  /\ wire (snd (search w "title" be_quiet s))
     = wire s ++ [EvSend (mkRequest (search_command "title" be_quiet) None);
                  EvSend (mkRequest "search" (Some ["title"; be_quiet]))].
Proof.
  intros Hc Hcl Hw.
  destruct (sim_search w 0 "title" be_quiet s s (same_refl s)) as [E1 (_&_&_&_&E2)].
  fold (search w "title" be_quiet) in E1, E2. rewrite E1, E2.
  unfold resolve, try_catch.
  destruct (run_cascade_quiet w Hw (cascade_plan "title" be_quiet) s Hc Hcl)
    as [F1 F2].
  destruct (run_cascade w (cascade_plan "title" be_quiet) s) as [[r|e] s1];
    simpl in *; [|discriminate].
  split; [done|]. rewrite F2. reflexivity.
Qed.

(** The scenario with a daemon that answers every command with an empty
    reply. *)
Lemma be_quiet_commands_silent :
  fst (search silent_world "title" be_quiet connected_session) = Returned []
  /\ wire (snd (search silent_world "title" be_quiet connected_session))
     = wire connected_session
       ++ [EvSend (mkRequest (search_command "title" be_quiet) None);
           EvSend (mkRequest "search" (Some ["title"; be_quiet]))].
Proof.
  apply (be_quiet_commands silent_world connected_session).
  - reflexivity.
  - by eexists.
  - intros history r. exists EmptyString. split; reflexivity.
Defined.

(** C5 as stated fails: with a daemon that answers every command with an
    empty reply, the commands on the wire are the two attempts with the type
    title, and no search with the type any is among them. *)
Lemma be_quiet_no_search_with_any :
  wire (snd (search silent_world "title" be_quiet connected_session))
  = [EvSend (mkRequest (search_command "title" be_quiet) None);
     EvSend (mkRequest "search" (Some ["title"; be_quiet]))]
  /\ forallb
       (fun e => match e with
                 | EvSend r =>
                     negb (Js.includes "any" (rq_command r))
                     && negb (bool_decide (rq_args r = Some ["any"; be_quiet]))
                 | _ => true
                 end)
       (wire (snd (search silent_world "title" be_quiet connected_session)))
     = true.
Proof. split; vm_compute; reflexivity. Qed.

(** * The other methods and the volume tool *)

(** ** The dispatcher *)

Lemma cmd_guarded w c args s :
  connected s = false \/ client s = None ->
  cmd w c args s = (Thrown NotConnected, s).
Proof.
  intros [H|H]; unfold cmd; rewrite H; [done|]. by rewrite orb_true_r.
Qed.

Lemma cmd_not_connected w c args s :
  connected s = false -> cmd w c args s = (Thrown NotConnected, s).
Proof. intros H. apply cmd_guarded. by left. Qed.

Lemma cmd_connected w c args s cl :
  connected s = true -> client s = Some cl ->
  cmd w c args s
  = (mpd_sendCommand w (wire s) (mkRequest c (Some args)),
     add_event (EvSend (mkRequest c (Some args))) s).
Proof.
  intros Hc Hcl. unfold cmd. rewrite Hc, Hcl. simpl.
  unfold try_catch, bind, ret, throw, client_sendCommand. rewrite Hcl.
  by destruct (mpd_sendCommand w _ _).
Qed.

(** X1: on a session that is not connected, or that has no client object,
    every method that goes through cmd raises NotConnected, calls nothing
    and leaves the session as it was. *)
Theorem guarded_methods_not_connected w show s :
  connected s = false \/ client s = None ->
  (forall position, play w show position s = (Thrown NotConnected, s))
  /\ pause w s = (Thrown NotConnected, s)
  /\ stop w s = (Thrown NotConnected, s)
  /\ next w s = (Thrown NotConnected, s)
  /\ previous w s = (Thrown NotConnected, s)
  /\ (forall p t, seek w show p t s = (Thrown NotConnected, s))
  /\ (forall v, setVolume w v s = (Thrown NotConnected, s))
  /\ (forall b, setRepeat w b s = (Thrown NotConnected, s))
  /\ (forall b, setRandom w b s = (Thrown NotConnected, s))
  /\ (forall b, setSingle w b s = (Thrown NotConnected, s))
  /\ (forall b, setConsume w b s = (Thrown NotConnected, s))
  /\ status w s = (Thrown NotConnected, s)
  /\ currentSong w s = (Thrown NotConnected, s)
  /\ stats w s = (Thrown NotConnected, s)
  /\ playlistInfo w s = (Thrown NotConnected, s)
  /\ (forall p, playlistDelete w show p s = (Thrown NotConnected, s))
  /\ playlistClear w s = (Thrown NotConnected, s)
  /\ (forall path, listAllInfo w path s = (Thrown NotConnected, s))
  /\ (forall type query, find w type query s = (Thrown NotConnected, s))
  /\ listPlaylists w s = (Thrown NotConnected, s)
  /\ (forall uri, ClientTs.playlistAdd w uri s = (Thrown NotConnected, s)).
Proof.
  intros H.
  repeat split; intros;
    unfold play, pause, stop, next, previous, seek, setVolume, setRepeat,
      setRandom, setSingle, setConsume, status, currentSong, stats,
      playlistInfo, playlistDelete, playlistClear, listAllInfo, find,
      listPlaylists, ClientTs.playlistAdd, bind;
    by rewrite cmd_guarded.
Qed.

Lemma guarded_methods_not_connected_closed :
  status silent_world closed_session = (Thrown NotConnected, closed_session)
  /\ setVolume silent_world (Js.Finite 50) closed_session
     = (Thrown NotConnected, closed_session).
Proof.
  pose proof (guarded_methods_not_connected silent_world
                (fun _ => EmptyString) closed_session (or_introl eq_refl))
    as H.
  split; [apply H|]. destruct H as (_&_&_&_&_&_&H&_). apply H.
Defined.

(** ** Connecting and disconnecting *)

(** X2: connect ends connected when it returns and not connected when it
    raises; it raises what the library raised and keeps the client object it
    had; it calls the library at most once, with the host and port of the
    session; and a connect after one that returned changes nothing. *)
Theorem connect_outcomes w s :
  match connect w s with
  | (Returned _, s') =>
      connected s' = true
      /\ (connected s = false -> is_Some (client s'))
      /\ connect w s' = (Returned tt, s')
  | (Thrown e, s') =>
      connected s' = false /\ client s' = client s
      /\ mpd_connect w (wire s) (host s) (port s) = Thrown e
  end
  /\ (wire (snd (connect w s)) = wire s
      \/ wire (snd (connect w s)) = wire s ++ [EvConnect (host s) (port s)])
  /\ host (snd (connect w s)) = host s
  /\ port (snd (connect w s)) = port s.
Proof.
  unfold connect. destruct (connected s) eqn:Hc.
  - simpl. rewrite Hc. repeat split; auto. intros; discriminate.
  - destruct (mpd_connect w (wire s) (host s) (port s)) as [c|e] eqn:E;
      simpl; repeat split; eauto.
Qed.

(** X3: disconnect never raises, whatever the close does; it calls close
    at most once and nothing else, keeps the client object, and a disconnect
    after one that left the session disconnected changes nothing. *)
Theorem disconnect_never_raises w s :
  fst (disconnect w s) = Returned tt
  /\ (wire (snd (disconnect w s)) = wire s
      \/ wire (snd (disconnect w s)) = wire s ++ [EvClose])
  /\ client (snd (disconnect w s)) = client s
  /\ (connected (snd (disconnect w s)) = false ->
      disconnect w (snd (disconnect w s))
      = (Returned tt, snd (disconnect w s))).
Proof.
  assert (forall t, connected t = false -> disconnect w t = (Returned tt, t))
    as Hidle by (intros t Ht; unfold disconnect; by rewrite Ht).
  unfold disconnect at 1 2 3 4. destruct (connected s) eqn:Hc; simpl.
  - unfold try_catch, bind, client_close, console_error, ret.
    destruct (client s) as [c|] eqn:Hcl; simpl.
    + destruct (close_is_function c); simpl.
      * destruct (mpd_close w (wire s)) as [[]|e]; simpl;
          repeat split; auto.
      * repeat split; auto.
    + repeat split; auto.
  - repeat split; auto.
Qed.

(** ** Mode flags *)

Lemma flag_decodes (b : bool) : is_text (Some (if b then "1" else "0")) "1" = b.
Proof. by destruct b. Qed.

(** X4: each of the four mode setters puts on the wire of a connected
    session one command with one argument, and a status whose field of that
    name carries this argument reads the flag that was set: what the setters
    write is what status reads back. A field that is missing reads as
    false. *)
Theorem mode_flags_round_trip w s cl (b : bool) :
  connected s = true ->
  client s = Some cl ->
  exists a,
    wire (snd (setRepeat w b s))
      = wire s ++ [EvSend (mkRequest "repeat" (Some [a]))]
    /\ wire (snd (setRandom w b s))
      = wire s ++ [EvSend (mkRequest "random" (Some [a]))]
    /\ wire (snd (setSingle w b s))
      = wire s ++ [EvSend (mkRequest "single" (Some [a]))]
    /\ wire (snd (setConsume w b s))
      = wire s ++ [EvSend (mkRequest "consume" (Some [a]))]
    /\ (forall parsed : gmap string string,
          (parsed !! "repeat" = Some a -> st_repeat (status_of parsed) = b)
          /\ (parsed !! "random" = Some a -> st_random (status_of parsed) = b)
          /\ (parsed !! "single" = Some a -> st_single (status_of parsed) = b)
          /\ (parsed !! "consume" = Some a
              -> st_consume (status_of parsed) = b)
          /\ (parsed !! "repeat" = None -> st_repeat (status_of parsed) = false)
          /\ (parsed !! "random" = None -> st_random (status_of parsed) = false)
          /\ (parsed !! "single" = None -> st_single (status_of parsed) = false)
          /\ (parsed !! "consume" = None
              -> st_consume (status_of parsed) = false)).
Proof.
  intros Hc Hcl. exists (if b then "1" else "0").
  unfold setRepeat, setRandom, setSingle, setConsume, bind.
  rewrite !(cmd_connected w _ _ s cl Hc Hcl).
  repeat split;
    try (by destruct (mpd_sendCommand w _ _));
    intros H; simpl; rewrite H; auto using flag_decodes.
Qed.

Lemma mode_flags_round_trip_silent :
  exists a,
    wire (snd (setRepeat silent_world true connected_session))
      = wire connected_session ++ [EvSend (mkRequest "repeat" (Some [a]))]
    /\ st_repeat (status_of {[ "repeat" := a ]}) = true.
Proof.
  destruct (mode_flags_round_trip silent_world connected_session
              (mkClient true) true eq_refl eq_refl) as (a & H1 & _ & _ & _ & H).
  exists a. split; [exact H1|].
  destruct (H {[ "repeat" := a ]}) as (H2 & _). apply H2.
  apply lookup_singleton_eq.
Defined.

(** ** More on the decoder *)

Lemma match_line_value line key value :
  match_line line = Some (key, value) -> value <> EmptyString.
Proof.
  intros H. apply match_line_shape in H as (w & _ & _ & _ & _ & Hv).
  unfold is_value in Hv. by destruct value.
Qed.

Lemma set_prop_file k v (m : gmap string string) :
  is_Some (m !! "file") -> is_Some (set_prop k v m !! "file").
Proof.
  intros H. unfold set_prop. destruct (String.eqb k "__proto__"); [done|].
  destruct (decide (k = "file")) as [->|Hne].
  - rewrite lookup_insert_eq. by eexists.
  - by rewrite lookup_insert_ne.
Qed.

Lemma set_prop_values k v (m : gmap string string) :
  v <> EmptyString ->
  (forall j x, m !! j = Some x -> x <> EmptyString) ->
  forall j x, set_prop k v m !! j = Some x -> x <> EmptyString.
Proof.
  intros Hv Hm j x. unfold set_prop.
  destruct (String.eqb k "__proto__"); [apply Hm|].
  destruct (decide (k = j)) as [->|Hne].
  - rewrite lookup_insert_eq. by intros [= <-].
  - rewrite lookup_insert_ne by done. apply Hm.
Qed.

Lemma last_value_None k lines :
  last_value k lines = None
  <-> Forall (fun l => forall key value,
                match_line l = Some (key, value) -> Js.toLowerCase key <> k)
             lines.
Proof.
  induction lines as [|l lines IH]; cbn [last_value].
  - split; [constructor|done].
  - rewrite Forall_cons, <- IH. destruct (last_value k lines) as [v|].
    + split; [done|]. by intros [_ ?].
    + destruct (match_line l) as [[key value]|].
      * destruct (String.eqb_spec (Js.toLowerCase key) k) as [E|E].
        -- split; [done|]. intros [H _]. by destruct (H key value eq_refl).
        -- split; [|done]. intros _. split; [|done].
           by intros ? ? [= <- <-].
      * split; [|done]. intros _. by split.
Qed.

Lemma array_step_inv st line : array_inv st -> array_inv (array_step st line).
Proof.
  destruct st as [result current]. unfold array_inv, array_step. simpl.
  intros (I1 & I2 & I3 & I4).
  destruct (match_line line) as [[key value]|] eqn:E; [|done].
  apply match_line_value in E.
  apply Forall_cons in I4 as [I4 I5].
  destruct (String.eqb_spec (Js.toLowerCase key) "file") as [->|Hk]; simpl.
  - destruct (has_keys current) eqn:Hc; simpl.
    + repeat split.
      * apply Forall_app. split; [done|]. by constructor.
      * destruct result as [|r result]; simpl; [constructor|].
        apply Forall_app. split; [done|]. constructor; [|constructor].
        apply I3. done.
      * intros _. rewrite set_prop_insert by done.
        rewrite lookup_insert_eq. by eexists.
      * constructor.
        -- apply set_prop_values; [done|]. intros j x.
           by rewrite lookup_empty.
        -- apply Forall_app. split; [done|]. by constructor.
    + repeat split; try done.
      * intros H. apply set_prop_file. auto.
      * constructor; [|done]. by apply set_prop_values.
  - repeat split; try done.
    + intros H. apply set_prop_file. auto.
    + constructor; [|done]. by apply set_prop_values.
Qed.

Lemma array_loop_inv lines st :
  array_inv st -> array_inv (fold_left array_step lines st).
Proof.
  revert st. induction lines as [|l lines IH]; intros st H; [done|].
  cbn [fold_left]. by apply IH, array_step_inv.
Qed.

Lemma array_response_records text :
  Forall (fun r => has_keys r = true) (parseArrayResponse text)
  /\ Forall (fun r : gmap string string => is_Some (r !! "file"))
            (tail (parseArrayResponse text))
  /\ Forall (fun r : gmap string string =>
               forall k v, r !! k = Some v -> v <> EmptyString)
            (parseArrayResponse text).
Proof.
  unfold parseArrayResponse.
  assert (array_inv (fold_left array_step (Js.split Js.LF text) ([], ∅)))
    as H.
  { apply array_loop_inv. unfold array_inv. simpl. repeat split; try done.
    constructor; [|constructor]. intros k v. by rewrite lookup_empty. }
  destruct (fold_left array_step (Js.split Js.LF text) ([], ∅))
    as [result current].
  destruct H as (I1 & I2 & I3 & I4). simpl in *.
  apply Forall_cons in I4 as [I4 I5].
  destruct (has_keys current) eqn:Hc; [|done].
  repeat split.
  - apply Forall_app. split; [done|]. by constructor.
  - destruct result as [|r result]; simpl; [constructor|].
    apply Forall_app. split; [done|]. constructor; [|constructor]. by apply I3.
  - apply Forall_app. split; [done|]. by constructor.
Qed.

(** X5: whatever the text, every record of parseArrayResponse has at least one
    field, every record but the first has a file field, and no field of any
    record has the empty text as its value. *)
Theorem parseArrayResponse_records text :
  Forall (fun r => has_keys r = true) (parseArrayResponse text)
  /\ Forall (fun r : gmap string string => is_Some (r !! "file"))
            (tail (parseArrayResponse text))
  /\ Forall (fun r : gmap string string =>
               forall k v, r !! k = Some v -> v <> EmptyString)
            (parseArrayResponse text).
Proof. apply array_response_records. Qed.

(** Without a file line the loop of parseArrayResponse is that of
    parseResponse. *)
Lemma array_loop_no_file lines (current : gmap string string) :
  last_value "file" lines = None ->
  fold_left array_step lines ([], current)
  = ([], fold_left
           (fun result line =>
              match match_line line with
              | Some (key, value) => set_prop (Js.toLowerCase key) value result
              | None => result
              end) lines current).
Proof.
  rewrite last_value_None. intros H. revert current.
  induction H as [|l lines Hl _ IH]; intros current; [done|].
  cbn [fold_left]. rewrite <- IH. f_equal. unfold array_step.
  destruct (match_line l) as [[key value]|]; [|done].
  specialize (Hl key value eq_refl).
  by destruct (String.eqb_spec (Js.toLowerCase key) "file").
Qed.

Lemma array_response_no_file text :
  last_value "file" (Js.split Js.LF text) = None ->
  parseArrayResponse text
  = if has_keys (parseResponse text) then [parseResponse text] else [].
Proof.
  intros H. unfold parseArrayResponse, parseResponse.
  by rewrite array_loop_no_file.
Qed.

(** X6: for a text with no line whose key is file in lower case,
    parseArrayResponse gives the one record of parseResponse, or no record
    when that one has no field: however many entries the text lists, they are merged
    into one record, in which a later value of a key replaces an earlier
    one. *)
Theorem parseArrayResponse_without_file text :
  last_value "file" (Js.split Js.LF text) = None ->
  parseArrayResponse text
  = if has_keys (parseResponse text) then [parseResponse text] else [].
Proof. apply array_response_no_file. Qed.

(** The reply to listplaylists of the tests of the client. *)
Lemma parseArrayResponse_without_file_playlists :
  parseArrayResponse two_playlists
  = [ {[ "playlist" := "Test Playlist 2";
         "last-modified" := "2023-01-02T00:00:00Z" ]} ].
Proof.
  rewrite (parseArrayResponse_without_file two_playlists eq_refl).
  vm_compute. reflexivity.
Defined.

(** X7: listPlaylists returns at most one entry when the reply has no
    file line, as the replies to listplaylists are: the entry holds the last
    playlist name and the last modification time of the reply. *)
Theorem listPlaylists_one_entry w s cl reply :
  connected s = true ->
  client s = Some cl ->
  mpd_sendCommand w (wire s) (mkRequest "listplaylists" (Some []))
  = Returned reply ->
  last_value "file" (Js.split Js.LF reply) = None ->
  exists entries,
    fst (listPlaylists w s) = Returned entries
    /\ length entries <= 1
    /\ Forall (fun e =>
                 pl_playlist e = last_value "playlist" (Js.split Js.LF reply)
                 /\ pl_lastModified e
                    = last_value "last-modified" (Js.split Js.LF reply))
              entries.
Proof.
  intros Hc Hcl Hr Hf. unfold listPlaylists, bind.
  rewrite (cmd_connected w _ _ s cl Hc Hcl), Hr. simpl.
  rewrite (array_response_no_file reply Hf).
  destruct (has_keys (parseResponse reply)).
  - eexists. split; [reflexivity|]. split; [simpl; lia|].
    constructor; [|constructor]. simpl. unfold parseResponse.
    rewrite !parse_lines_lookup by done. rewrite !lookup_empty.
    split; [destruct (last_value "playlist" _)
           |destruct (last_value "last-modified" _)]; reflexivity.
  - exists []. split; [reflexivity|]. split; [simpl; lia|]. constructor.
Qed.

(** The library of the tests: two playlists in the reply, one entry. *)
Lemma listPlaylists_one_entry_tests :
  exists entries,
    fst (listPlaylists playlists_world connected_session) = Returned entries
    /\ length entries <= 1
    /\ Forall (fun e =>
                 pl_playlist e
                 = last_value "playlist" (Js.split Js.LF two_playlists)
                 /\ pl_lastModified e
                    = last_value "last-modified" (Js.split Js.LF two_playlists))
              entries.
Proof.
  apply (listPlaylists_one_entry playlists_world connected_session
           (mkClient true) two_playlists); reflexivity.
Defined.

Example listPlaylists_of_the_tests :
  fst (listPlaylists playlists_world connected_session)
  = Returned [ {| pl_playlist := Some "Test Playlist 2";
                  pl_lastModified := Some "2023-01-02T00:00:00Z" |} ].
Proof. vm_compute. reflexivity. Qed.

(** ** Songs *)

Lemma parseResponse_lookup text k :
  k <> "__proto__" ->
  parseResponse text !! k = last_value k (Js.split Js.LF text).
Proof.
  intros Hk. unfold parseResponse. rewrite parse_lines_lookup by done.
  rewrite lookup_empty. by destruct (last_value k _).
Qed.

Lemma last_value_In k lines l key value :
  In l lines -> match_line l = Some (key, value) ->
  Js.toLowerCase key = k -> is_Some (last_value k lines).
Proof.
  intros Hin Hm Hk.
  destruct (last_value k lines) as [v|] eqn:E; [by eexists|].
  apply last_value_None in E. rewrite Forall_forall in E.
  apply list_elem_of_In in Hin. by destruct (E l Hin key value Hm).
Qed.

Lemma parse_lines_no_match lines (acc : gmap string string) :
  Forall (fun l => match_line l = None) lines ->
  fold_left
    (fun result line =>
       match match_line line with
       | Some (key, value) => set_prop (Js.toLowerCase key) value result
       | None => result
       end) lines acc = acc.
Proof.
  intros H. revert acc. induction H as [|l lines Hl _ IH]; intros acc; [done|].
  cbn [fold_left]. by rewrite Hl, IH.
Qed.

(** X8: currentSong gives null when no line of the reply has the shape
    Key: Value, and a song as soon as one line has it (under a name a record
    can hold), whether or not the reply has a file line: the fields of the
    song are the last values of the lines of their names, the file
    included, which is then undefined. *)
Theorem currentSong_result w s cl reply :
  connected s = true ->
  client s = Some cl ->
  mpd_sendCommand w (wire s) (mkRequest "currentsong" (Some []))
  = Returned reply ->
  (Forall (fun l => match_line l = None) (Js.split Js.LF reply) ->
   fst (currentSong w s) = Returned None)
  /\ (forall l key value,
        In l (Js.split Js.LF reply) ->
        match_line l = Some (key, value) ->
        Js.toLowerCase key <> "__proto__" ->
        exists song,
          fst (currentSong w s) = Returned (Some song)
          /\ song_file song = last_value "file" (Js.split Js.LF reply)
          /\ song_artist song = last_value "artist" (Js.split Js.LF reply)
          /\ song_album song = last_value "album" (Js.split Js.LF reply)
          /\ song_title song = last_value "title" (Js.split Js.LF reply)).
Proof.
  intros Hc Hcl Hr. unfold currentSong, bind.
  rewrite (cmd_connected w _ _ s cl Hc Hcl), Hr. simpl. split.
  - intros H. destruct (Js.isEmpty reply); [done|].
    unfold parseResponse. by rewrite parse_lines_no_match.
  - intros l key value Hin Hm Hk.
    destruct reply as [|c reply]; simpl Js.isEmpty; cbv iota.
    { destruct Hin as [<-|[]]. discriminate Hm. }
    pose proof (last_value_In _ _ _ _ _ Hin Hm eq_refl) as [v Hv].
    rewrite <- parseResponse_lookup in Hv by done.
    destruct (Nat.eqb_spec (size (parseResponse (String c reply))) 0) as [E|_].
    { apply map_size_empty_iff in E. rewrite E, lookup_empty in Hv.
      discriminate Hv. }
    eexists. split; [reflexivity|]. simpl.
    by rewrite !parseResponse_lookup.
Qed.

(** A reply that names an artist and no file. *)
Lemma currentSong_result_no_file :
  exists song,
    fst (currentSong (reply_world "Artist: Test Artist") connected_session)
    = Returned (Some song)
    /\ song_file song = None
    /\ song_artist song = Some "Test Artist".
Proof.
  destruct (proj2 (currentSong_result (reply_world "Artist: Test Artist")
                     connected_session (mkClient true) "Artist: Test Artist"
                     eq_refl eq_refl eq_refl)
              "Artist: Test Artist" "Artist" "Test Artist")
    as (song & H1 & H2 & H3 & _).
  - by left.
  - reflexivity.
  - discriminate.
  - exists song. repeat split; assumption.
Defined.

Lemma filter_all {A} (p : A -> bool) (l : list A) :
  Forall (fun x => p x = true) l -> List.filter p l = l.
Proof.
  induction 1 as [|x l Hx _ IH]; [done|]. simpl. by rewrite Hx, IH.
Qed.

Lemma filter_length_tail {A} (p : A -> bool) (l : list A) :
  Forall (fun x => p x = true) (tail l) ->
  length l <= S (length (List.filter p l)).
Proof.
  destruct l as [|x l]; simpl; [lia|]. intros H. rewrite (filter_all p l H).
  destruct (p x); simpl; lia.
Qed.

(** X9: listAllInfo returns the songs of the records decoded from the
    reply, in their order, all of them or all but the first: the first
    record is left out exactly when it has no file (the lines of an entry
    without file that comes later belong to the record of the song before
    it). So every song returned has a file that is not empty. The path goes
    to the daemon when it is given and not empty. *)
Theorem listAllInfo_songs_have_files w path s songs s' :
  listAllInfo w path s = (Returned songs, s') ->
  Forall (fun g => exists f, song_file g = Some f /\ f <> EmptyString) songs
  /\ exists reply,
       mpd_sendCommand w (wire s)
         (mkRequest "listallinfo"
            (Some (match path with
                   | Some (String c p) => [String c p]
                   | _ => []
                   end)))
       = Returned reply
       /\ match parseArrayResponse reply with
          | [] => songs = []
          | first :: rest =>
              match first !! "file" with
              | Some _ => songs = map convertToMpdSong (first :: rest)
              | None => songs = map convertToMpdSong rest
              end
          end.
Proof.
  unfold listAllInfo, bind.
  replace (if negb (Js.isEmpty (default EmptyString path))
           then [default EmptyString path] else [])
    with (match path with Some (String c p) => [String c p] | _ => [] end)
    by (by destruct path as [[|c p]|]).
  destruct (connected s) eqn:Hc;
    [|rewrite cmd_not_connected by done; discriminate].
  destruct (client s) as [cl|] eqn:Hcl;
    [|unfold cmd; rewrite Hc, Hcl; discriminate].
  rewrite (cmd_connected w _ _ s cl Hc Hcl).
  destruct (mpd_sendCommand w (wire s) _) as [reply|e]; [|discriminate].
  simpl. intros [= <- _].
  pose proof (array_response_records reply) as (_ & H2 & H3).
  split.
  - apply Forall_map, Forall_forall. intros r Hr.
    apply list_elem_of_In, filter_In in Hr as [_ Hr]. simpl.
    destruct (r !! "file") as [[|c f]|]; try discriminate. by eexists.
  - exists reply. split; [reflexivity|].
    destruct (parseArrayResponse reply) as [|first rest]; [reflexivity|].
    apply Forall_cons in H3 as [H3 H4]. cbn [tail] in H2.
    assert (List.filter
              (fun item : gmap string string => truthy (item !! "file")) rest
            = rest) as Hrest.
    { apply filter_all. rewrite Forall_forall in *. intros r Hr.
      destruct (H2 r Hr) as [f Hf]. rewrite Hf.
      specialize (H4 r Hr "file" f Hf). by destruct f. }
    cbn [List.filter]. rewrite Hrest.
    destruct (first !! "file") as [f|] eqn:Hf; [|reflexivity].
    specialize (H3 "file" f Hf). by destruct f.
Qed.

(** A directory entry before a song: the record of the directory is left
    out. *)
Lemma listAllInfo_songs_have_files_directory :
  parseArrayResponse directory_listing
  = [ {[ "directory" := "Music" ]}; {[ "file" := "a.mp3"; "title" := "A" ]} ]
  /\ fst (listAllInfo (reply_world directory_listing) None connected_session)
     = Returned (map convertToMpdSong [ {[ "file" := "a.mp3"; "title" := "A" ]} ]).
Proof.
  split; [vm_compute; reflexivity|].
  destruct (listAllInfo (reply_world directory_listing) None connected_session)
    as [[songs|e] s'] eqn:E; [|vm_compute in E; discriminate E].
  destruct (listAllInfo_songs_have_files _ _ _ _ _ E) as (_ & reply & Hr & H).
  injection Hr as <-.
  replace (parseArrayResponse directory_listing)
    with [ ({[ "directory" := "Music" ]} : gmap string string);
           {[ "file" := "a.mp3"; "title" := "A" ]} ] in H
    by (vm_compute; reflexivity).
  change (({[ "directory" := "Music" ]} : gmap string string) !! "file")
    with (@None string) in H.
  cbv beta iota in H. by rewrite H.
Defined.

(** ** Listings through the dispatcher *)

Lemma array_response_listing blocks :
  forallb block_ok blocks = true ->
  parseArrayResponse (listing_text blocks) = map block_record blocks.
Proof.
  intros H. unfold parseArrayResponse, listing_text.
  destruct blocks as [|b blocks]; [reflexivity|].
  assert (Forall (fun x => occurs LFc x = false)
            (concat (map block_lines (b :: blocks)))) as Hlf.
  { apply Forall_concat, Forall_map, Forall_forall. intros x Hx.
    apply block_lines_no_LF. rewrite forallb_forall in H.
    by apply H, list_elem_of_In. }
  change (concat (map block_lines (b :: blocks)))
    with (field_line ("file", blk_file b)
          :: (map field_line (blk_others b)
              ++ concat (map block_lines blocks))) in Hlf |- * at 1.
  rewrite split_concat_lines by done.
  exact (array_loop_blocks (b :: blocks) [] ∅ H).
Qed.

Lemma fold_insert_other (l : list (string * string)) (m : gmap string string) k :
  Forall (fun p => p.1 <> k) l ->
  fold_left (fun (m : gmap string string) p => <[p.1 := p.2]> m) l m !! k
  = m !! k.
Proof.
  intros H. revert m. induction H as [|p l Hp _ IH]; intros m; [done|].
  cbn [fold_left]. rewrite IH. by rewrite lookup_insert_ne.
Qed.

Lemma block_record_file b :
  block_ok b = true -> block_record b !! "file" = Some (blk_file b).
Proof.
  unfold block_ok. intros H.
  apply andb_true_iff in H as [_ H].
  unfold block_record, block_fields. rewrite <- fold_insert_list_to_map.
  cbn [fold_left]. rewrite fold_insert_other.
  - apply lookup_insert_eq.
  - apply Forall_map, Forall_forall. intros f Hf. simpl.
    rewrite forallb_forall in H.
    apply list_elem_of_In, H, other_ok_spec in Hf as (_ & _ & Hf & _).
    by apply String.eqb_neq.
Qed.

Lemma block_record_file_truthy b :
  block_ok b = true -> truthy (block_record b !! "file") = true.
Proof.
  intros H. rewrite (block_record_file b H). unfold block_ok in H.
  apply andb_true_iff in H as [H _]. apply andb_true_iff in H as [H _].
  unfold is_value in H. by destruct (blk_file b).
Qed.

(** X10: when the reply of the daemon is the listing of N blocks, each the
    line of a file field followed by the lines of other fields, the queue
    (playlistInfo), an exact lookup (find) and the library (listAllInfo)
    each return N songs in the order of the blocks, the song of a block
    with the file of the block. *)
Theorem listing_songs w s cl blocks :
  connected s = true ->
  client s = Some cl ->
  forallb block_ok blocks = true ->
  (forall history r, mpd_sendCommand w history r
                     = Returned (listing_text blocks)) ->
  exists songs,
    fst (playlistInfo w s) = Returned songs
    /\ (forall type query, fst (find w type query s) = Returned songs)
    /\ (forall path, fst (listAllInfo w path s) = Returned songs)
    /\ map song_file songs = map (fun b => Some (blk_file b)) blocks.
Proof.
  intros Hc Hcl Hok Hw.
  exists (map convertToMpdSong (map block_record blocks)).
  unfold playlistInfo, find, listAllInfo, bind.
  repeat split; intros; rewrite ?(cmd_connected w _ _ s cl Hc Hcl), ?Hw;
    simpl; rewrite ?array_response_listing by done; try reflexivity.
  - rewrite filter_all; [reflexivity|].
    apply Forall_map, Forall_forall. intros b Hb.
    apply block_record_file_truthy. rewrite forallb_forall in Hok.
    by apply Hok, list_elem_of_In.
  - rewrite !map_map. apply map_ext_in. intros b Hb. simpl.
    apply block_record_file. rewrite forallb_forall in Hok. by apply Hok.
Qed.

(** The listing of two songs. *)
Lemma listing_songs_two_songs :
  exists songs,
    fst (playlistInfo (reply_world (listing_text two_songs)) connected_session)
    = Returned songs
    /\ (forall type query,
          fst (find (reply_world (listing_text two_songs)) type query
                 connected_session) = Returned songs)
    /\ (forall path,
          fst (listAllInfo (reply_world (listing_text two_songs)) path
                 connected_session) = Returned songs)
    /\ map song_file songs = map (fun b => Some (blk_file b)) two_songs.
Proof.
  apply (listing_songs (reply_world (listing_text two_songs))
           connected_session (mkClient true) two_songs);
    try reflexivity.
Defined.

(** ** What a command leaves as it is *)

Lemma client_sendCommand_frame w r s :
  same_fields (snd (client_sendCommand w r s)) s.
Proof. unfold client_sendCommand. by destruct (client s). Qed.

Lemma cmd_frame w c args s : same_fields (snd (cmd w c args s)) s.
Proof.
  unfold cmd. destruct (negb (connected s) || is_undefined (client s)); [done|].
  unfold try_catch, bind, ret, throw.
  pose proof (client_sendCommand_frame w (mkRequest c (Some args)) s) as H.
  by destruct (client_sendCommand w _ s) as [[r|e] s'].
Qed.

Lemma same_fields_trans s t u :
  same_fields s t -> same_fields t u -> same_fields s u.
Proof. intros (?&?&?&?) (?&?&?&?). repeat split; congruence. Qed.

(** ** The two encodings of add and of the earlier search *)

(** X11: playlistAdd of the later client, case by case. It never changes
    the host, the port, the flag or the client object. When the token-array
    command is accepted it returns with the session of that command. On a
    connected session with a client object it sends the token-array
    command, and, only when that is rejected, the quoted command after it;
    it then returns when the quoted command is accepted and raises the
    failure of the token array when it is not. On a session that is not
    connected but has a client object it sends the quoted command alone and
    raises Not connected when that fails. Without a client object it sends
    nothing and raises Not connected. *)
Theorem playlistAdd_two_encodings w uri s :
  same_fields (snd (playlistAdd w uri s)) s
  /\ (forall r s1, cmd w "add" [uri] s = (Returned r, s1) ->
        playlistAdd w uri s = (Returned tt, s1))
  /\ (forall cl, client s = Some cl -> connected s = true ->
        match mpd_sendCommand w (wire s) (mkRequest "add" (Some [uri])) with
        | Returned _ =>
            fst (playlistAdd w uri s) = Returned tt
            /\ wire (snd (playlistAdd w uri s))
               = wire s ++ [EvSend (mkRequest "add" (Some [uri]))]
        | Thrown e1 =>
            wire (snd (playlistAdd w uri s))
            = wire s ++ [EvSend (mkRequest "add" (Some [uri]));
                         EvSend (mkRequest (add_command uri) None)]
            /\ fst (playlistAdd w uri s)
               = match mpd_sendCommand w
                         (wire s ++ [EvSend (mkRequest "add" (Some [uri]))])
                         (mkRequest (add_command uri) None) with
                 | Returned _ => Returned tt
                 | Thrown _ => Thrown e1
                 end
        end)
  /\ (forall cl, client s = Some cl -> connected s = false ->
        wire (snd (playlistAdd w uri s))
        = wire s ++ [EvSend (mkRequest (add_command uri) None)]
        /\ fst (playlistAdd w uri s)
           = match mpd_sendCommand w (wire s)
                     (mkRequest (add_command uri) None) with
             | Returned _ => Returned tt
             | Thrown _ => Thrown NotConnected
             end)
  /\ (client s = None ->
        fst (playlistAdd w uri s) = Thrown NotConnected
        /\ wire (snd (playlistAdd w uri s)) = wire s).
Proof.
  split_and!.
  - unfold playlistAdd, try_catch, bind, console_error, throw, ret.
    pose proof (cmd_frame w "add" [uri] s) as F.
    destruct (cmd w "add" [uri] s) as [[r|e1] s1]; simpl in *; [done|].
    pose proof (client_sendCommand_frame w
                  (mkRequest (add_command uri) None)
                  (add_log ("Error with array approach: ", Some e1) s1)) as G.
    destruct (client_sendCommand w _ _) as [[r|e2] s2]; simpl in *.
    + eapply same_fields_trans; [exact G|exact F].
    + eapply same_fields_trans; [exact G|exact F].
  - intros r s1 H. unfold playlistAdd, try_catch, bind. by rewrite H.
  - intros cl Hcl Hc.
    unfold playlistAdd, try_catch, bind, console_error, throw, ret.
    rewrite (cmd_connected w _ _ s cl Hc Hcl).
    destruct (mpd_sendCommand w (wire s) (mkRequest "add" (Some [uri])))
      as [r|e1]; simpl; [done|].
    unfold client_sendCommand. simpl. rewrite Hcl. simpl.
    destruct (mpd_sendCommand w _ (mkRequest (add_command uri) None));
      simpl; by rewrite <- app_assoc.
  - intros cl Hcl Hc.
    unfold playlistAdd, try_catch, bind, console_error, throw, ret.
    rewrite cmd_not_connected by done.
    unfold client_sendCommand. simpl. rewrite Hcl.
    by destruct (mpd_sendCommand w (wire s) _).
  - intros Hcl.
    unfold playlistAdd, try_catch, bind, console_error, throw, ret.
    rewrite cmd_guarded by (by right).
    unfold client_sendCommand. simpl. by rewrite Hcl.
Qed.

(** The token array is rejected and the quoted command accepted: two
    commands, and add returns. After a disconnect the client object is
    still there: add reaches the daemon through it. *)
Lemma playlistAdd_two_encodings_closed :
  (wire (snd (playlistAdd token_rejecting_world "a.mp3" connected_session))
   = wire connected_session
     ++ [EvSend (mkRequest "add" (Some ["a.mp3"]));
         EvSend (mkRequest (add_command "a.mp3") None)]
   /\ fst (playlistAdd token_rejecting_world "a.mp3" connected_session)
      = Returned tt)
  /\ (wire (snd (playlistAdd silent_world "a.mp3" closed_session))
      = wire closed_session ++ [EvSend (mkRequest (add_command "a.mp3") None)]
      /\ fst (playlistAdd silent_world "a.mp3" closed_session) = Returned tt).
Proof.
  split.
  - exact (proj1 (proj2 (proj2 (playlistAdd_two_encodings
                                  token_rejecting_world "a.mp3"
                                  connected_session)))
             (mkClient true) eq_refl eq_refl).
  - exact (proj1 (proj2 (proj2 (proj2 (playlistAdd_two_encodings
                                         silent_world "a.mp3"
                                         closed_session))))
             (mkClient true) eq_refl eq_refl).
Defined.



(** ** Bounds of the search cascade *)

Lemma run_attempt_frame w a s : same_fields (snd (run_attempt w a s)) s.
Proof.
  unfold run_attempt, bind, ret. destruct (at_encoding a).
  - pose proof (client_sendCommand_frame w (attempt_request a) s) as H.
    by destruct (client_sendCommand w _ s) as [[r|e] s'].
  - pose proof (cmd_frame w "search" [at_type a; at_query a] s) as H.
    by destruct (cmd w _ _ s) as [[r|e] s'].
Qed.

Lemma run_cascade_frame w plan s : same_fields (snd (run_cascade w plan s)) s.
Proof.
  revert s. induction plan as [|a plan IH]; intros s; [done|].
  simpl. unfold bind. pose proof (run_attempt_frame w a s) as H.
  destruct (run_attempt w a s) as [[[|x r]|e] s1]; simpl in *; try done.
  eapply same_fields_trans; [apply IH|done].
Qed.

Lemma take_length_take {A} k (l : list A) : take (length (take k l)) l = take k l.
Proof.
  revert k. induction l as [|x l IH]; intros [|k]; simpl; try done.
  by rewrite IH.
Qed.

Lemma cascade_plan_length type query : length (cascade_plan type query) <= 3.
Proof.
  unfold cascade_plan. rewrite !length_app.
  destruct (_ && _); simpl; lia.
Qed.

Lemma run_cascade_wire_bounded w type query s :
  exists k, k <= 3
    /\ wire (snd (run_cascade w (cascade_plan type query) s))
       = wire s ++ map (fun a => EvSend (attempt_request a))
                       (take k (cascade_plan type query)).
Proof.
  destruct (run_cascade_wire w (cascade_plan type query) s) as [k Hk].
  exists (length (take k (cascade_plan type query))). split.
  - rewrite length_take. pose proof (cascade_plan_length type query). lia.
  - by rewrite take_length_take.
Qed.

(** X13: search is a bounded cascade. It leaves the host, the port, the
    connected flag and the client object of the session as they were. What
    it puts on the wire are the requests of the first attempts of the plan
    for the type asked, at most three, followed, for a type other than any,
    by those of the first attempts of the plan for the type any, at most
    three again: never more than six commands, and nothing but searches. *)
Theorem search_is_bounded w type query s :
  host (snd (search w type query s)) = host s
  /\ port (snd (search w type query s)) = port s
  /\ connected (snd (search w type query s)) = connected s
  /\ client (snd (search w type query s)) = client s
  /\ exists k j,
       k <= 3 /\ j <= 3 /\ (if String.eqb type "any" then j = 0 else True)
       /\ wire (snd (search w type query s))
          = wire s
            ++ map (fun a => EvSend (attempt_request a))
                   (take k (cascade_plan type query))
            ++ map (fun a => EvSend (attempt_request a))
                   (take j (cascade_plan "any" query)).
Proof.
  destruct (sim_search w 0 type query s s (same_refl s))
    as [_ (E1 & E2 & E3 & E4 & E5)].
  fold (search w type query) in *. rewrite E1, E2, E3, E4, E5.
  clear E1 E2 E3 E4 E5. unfold resolve, try_catch.
  pose proof (run_cascade_frame w (cascade_plan type query) s) as F1.
  destruct (run_cascade_wire_bounded w type query s) as (k & Hk & W1).
  destruct (run_cascade w (cascade_plan type query) s) as [[r|e] s1].
  { cbn [fst snd] in *. destruct F1 as (?&?&?&?). split_and!; try done.
    exists k, 0. rewrite W1. cbn [take map]. rewrite app_nil_r.
    split_and!; try done; try lia. by destruct (String.eqb type "any"). }
  cbn [fst snd] in F1, W1.
  destruct (String.eqb type "any") eqn:Hany.
  { cbn [ret fst snd]. destruct F1 as (?&?&?&?). split_and!; try done.
    exists k, 0. rewrite W1. cbn [take map]. rewrite app_nil_r.
    split_and!; done || lia. }
  pose proof (run_cascade_frame w (cascade_plan "any" query) s1) as F2.
  destruct (run_cascade_wire_bounded w "any" query s1) as (j & Hj & W2).
  pose proof (same_fields_trans _ _ _ F2 F1) as F3.
  assert (Hend : forall o s2,
            run_cascade w (cascade_plan "any" query) s1 = (o, s2) ->
            snd (match o with
                 | Returned a => (Returned a, s2)
                 | Thrown _ => ret [] s2
                 end) = s2) by (by intros [r|e'] s2 _).
  destruct (run_cascade w (cascade_plan "any" query) s1) as [o s2].
  rewrite (Hend o s2 eq_refl). cbn [fst snd] in *.
  destruct F3 as (?&?&?&?). split_and!; try done.
  exists k, j. rewrite W2, W1, <- app_assoc. split_and!; done || lia.
Qed.

(** ** Quoting *)

Lemma escapeQuotes_head s t :
  Js.escapeQuotes s <> String Js.dquote t.
Proof.
  destruct s as [|c s]; [done|]. cbn [Js.escapeQuotes].
  destruct (Ascii.eqb_spec c Js.dquote) as [->|Hc]; [done|]. congruence.
Qed.

Lemma escapeQuotes_inj s t : Js.escapeQuotes s = Js.escapeQuotes t -> s = t.
Proof.
  revert t. induction s as [|c s IH]; intros [|d t]; cbn [Js.escapeQuotes].
  - done.
  - by destruct (Ascii.eqb d Js.dquote).
  - by destruct (Ascii.eqb c Js.dquote).
  - destruct (Ascii.eqb_spec c Js.dquote) as [->|Hc],
             (Ascii.eqb_spec d Js.dquote) as [->|Hd].
    + intros [= H]. by rewrite (IH t H).
    + intros [= <- H]. symmetry in H. by apply escapeQuotes_head in H.
    + intros [= -> H]. by apply escapeQuotes_head in H.
    + intros [= -> H]. by rewrite (IH t H).
Qed.

Lemma append_inj_l (a x y : string) : (a ++ x)%string = (a ++ y)%string -> x = y.
Proof.
  induction a as [|c a IH]; [done|]. rewrite !append_cons. intros [= H]. auto.
Qed.

Lemma append_char_inj (x y : string) c :
  (x ++ String c EmptyString)%string = (y ++ String c EmptyString)%string ->
  x = y.
Proof.
  revert y. induction x as [|a x IH]; intros [|b y]; rewrite ?append_cons;
    rewrite ?append_nil_l.
  - done.
  - intros [= <- H]. by destruct y.
  - intros [= -> H]. by destruct x.
  - intros [= -> H]. by rewrite (IH y H).
Qed.

(** X14: the quoting of a query loses nothing: for one type, two queries
    that differ give two command texts that differ, for the search command
    as for the add command. *)
Theorem quoted_commands_differ type q1 q2 :
  (search_command type q1 = search_command type q2 -> q1 = q2)
  /\ (add_command q1 = add_command q2 -> q1 = q2).
Proof.
  unfold search_command, add_command, Js.quoted. split; intros H.
  - apply append_inj_l in H. injection H as H.
    apply append_inj_l, append_inj_l in H. injection H as H.
    by apply append_char_inj, escapeQuotes_inj in H.
  - apply append_inj_l in H. injection H as H.
    by apply append_char_inj, escapeQuotes_inj in H.
Qed.

Lemma quoted_commands_differ_sample :
  String.eqb (search_command "title" "a")
             (search_command "title" (String Js.dquote "a")) = false.
Proof.
  apply String.eqb_neq. intros H.
  apply (proj1 (quoted_commands_differ "title" "a" (String Js.dquote "a"))) in H.
  discriminate H.
Defined.

(** X15: a line is decoded exactly when it is a key that is not empty and
    holds no colon, a colon, one white space, and a value that is not empty
    and holds no line terminator; the key and the value are then these two
    parts. So a line is passed over when its first colon is not followed by
    white space, when nothing follows the white space, and when it ends
    with a carriage return. *)
Theorem decoded_line_shape line key value :
  match_line line = Some (key, value)
  <-> exists w, line = (key ++ String ":" (String w value))%string
               /\ Js.isEmpty key = false /\ occurs ":" key = false
               /\ Js.isWhiteSpace w = true /\ is_value value = true.
Proof. apply match_line_shape. Qed.

(** ** The volume tool *)

Lemma floor_in_range (q : Q) :
  (0 <= q <= 100)%Q -> (0 <= Qfloor q <= 100)%Z.
Proof.
  intros [H0 H1]. split.
  - change 0%Z with (Qfloor 0). by apply Qfloor_resp_le.
  - change 100%Z with (Qfloor 100). by apply Qfloor_resp_le.
Qed.

Lemma volume_guard_finite (q : Q) :
  Server.isNaN (Js.Finite q) || Server.lt (Js.Finite q) (Js.Finite 0)
  || Server.gt (Js.Finite q) (Js.Finite 100) = false
  <-> (0 <= q <= 100)%Q.
Proof.
  unfold Server.gt. cbn [Server.isNaN Server.lt orb].
  rewrite orb_false_iff, !negb_false_iff, !Qle_bool_iff. tauto.
Qed.

(** X16: the volume tool first makes the session connected. When that
    fails the tool raises the error of ensureConnected, whatever the
    volume. When it succeeds, a volume that is NaN, an infinity, below 0 or
    above 100 is refused with nothing sent after the connect; a volume from
    0 to 100 goes to setVolume, where the clamp changes nothing: the one
    command sent is setvol with the floor of the volume, itself from 0 to
    100, and the tool gives its content when the daemon accepts the command
    and the error of the daemon, wrapped, when it does not. The session is
    one that has a client object whenever it is connected. *)
Theorem volume_control_guard w H P show s :
  (connected s = true -> is_Some (client s)) ->
  match Server.ensureConnected w H P show s with
  | (Server.Raised e, s1) =>
      forall v,
        fst (Server.volume_control w H P show v s) = Server.Raised e
        /\ wire (snd (Server.volume_control w H P show v s)) = wire s1
        /\ same_fields (snd (Server.volume_control w H P show v s)) s1
  | (Server.Content _, s1) =>
      wire s1 = wire s ++ (if connected s then []
                           else [EvConnect (host s) (port s)])
      /\ (forall v,
            (forall q, v = Js.Finite q -> ~ (0 <= q <= 100)%Q) ->
            fst (Server.volume_control w H P show v s)
            = Server.Raised
                (Server.mkToolError
                   "Volume must be a number between 0 and 100" None)
            /\ wire (snd (Server.volume_control w H P show v s)) = wire s1
            /\ same_fields (snd (Server.volume_control w H P show v s)) s1)
      /\ (forall q,
            (0 <= q <= 100)%Q ->
            (0 <= Qfloor q <= 100)%Z
            /\ wire (snd (Server.volume_control w H P show (Js.Finite q) s))
               = wire s1
                 ++ [EvSend (mkRequest "setvol"
                               (Some [Js.toString (Js.IInt (Qfloor q))]))]
            /\ fst (Server.volume_control w H P show (Js.Finite q) s)
               = match mpd_sendCommand w (wire s1)
                         (mkRequest "setvol"
                            (Some [Js.toString (Js.IInt (Qfloor q))])) with
                 | Returned _ =>
                     Server.Content
                       ("Volume set to " ++ show (Js.Finite q) ++ "%")%string
                 | Thrown e =>
                     Server.Raised
                       (Server.mkToolError "Error setting volume: " (Some e))
                 end)
  end.
Proof.
  intros Hcl.
  assert (match Server.ensureConnected w H P show s with
          | (Server.Content _, s1) =>
              connected s1 = true /\ is_Some (client s1)
              /\ wire s1 = wire s ++ (if connected s then []
                                      else [EvConnect (host s) (port s)])
          | (Server.Raised _, _) => True
          end) as Hs1.
  { unfold Server.ensureConnected, connect.
    destruct (connected s) eqn:Hc; simpl.
    - split; [done|]. split; [auto|]. by rewrite app_nil_r.
    - destruct (mpd_connect w (wire s) (host s) (port s)); simpl; [|done].
      split; [done|]. split; [by eexists|done]. }
  unfold Server.volume_control.
  destruct (Server.ensureConnected w H P show s) as [[[]|e] s1].
  - destruct Hs1 as (Hc1 & [cl Hcl1] & Hw1). split; [exact Hw1|]. split.
    + intros v Hv. unfold Server.volume_case.
      assert (Server.isNaN v || Server.lt v (Js.Finite 0)
              || Server.gt v (Js.Finite 100) = true) as ->; [|by split_and!].
      destruct v as [| | |q]; try reflexivity.
      destruct (Server.isNaN (Js.Finite q)
                || Server.lt (Js.Finite q) (Js.Finite 0)
                || Server.gt (Js.Finite q) (Js.Finite 100)) eqn:E; [done|].
      apply volume_guard_finite in E. by destruct (Hv q eq_refl).
    + intros q Hq. pose proof (floor_in_range q Hq) as Hf.
      split; [done|]. unfold Server.volume_case.
      rewrite (proj2 (volume_guard_finite q) Hq).
      unfold setVolume, bind. cbn [Js.Math_floor Js.Math_min Js.Math_max].
      replace (Z.max 0 (Z.min 100 (Qfloor q))) with (Qfloor q) by lia.
      rewrite (cmd_connected w _ _ s1 cl Hc1 Hcl1).
      by destruct (mpd_sendCommand w (wire s1) _).
  - intros v. by split_and!.
Qed.

(** A first call of the tool on a new session: the connect, then setvol
    75. *)
Lemma volume_control_guard_75 :
  wire (snd (Server.volume_control silent_world "localhost" (Js.Finite 6600)
               (fun _ => "75") (Js.Finite 75) (new_session "localhost" 6600)))
  = [EvConnect "localhost" 6600; EvSend (mkRequest "setvol" (Some ["75"]))]
  /\ fst (Server.volume_control silent_world "localhost" (Js.Finite 6600)
            (fun _ => "75") Js.NaN (new_session "localhost" 6600))
     = Server.Raised
         (Server.mkToolError "Volume must be a number between 0 and 100" None).
Proof.
  pose proof (volume_control_guard silent_world "localhost" (Js.Finite 6600)
                (fun _ => "75") (new_session "localhost" 6600)) as G.
  simpl in G. destruct (G ltac:(discriminate)) as (_ & G1 & G2). split.
  - refine (proj1 (proj2 (G2 75%Q _))). by split.
  - apply G1. discriminate.
Defined.


